(** * google-drive-mcp-server: the credential manager and the tool surface

    A shallow embedding of [main.py].  The program is a sequence of calls
    into external collaborators (the local file system, [pickle], the
    identity provider, the Drive client) with diagnostic prints in between,
    every function wrapped in [try: ... except Exception as e: print; raise].

    The embedding keeps that shape: a state-and-exception monad over a
    [World] holding the local files, the lines written to [sys.stderr] and
    the trace of calls made so far; the collaborators are the fields of a
    record [Ext], each one a function of the trace so far, so that a remote
    service may answer differently over time.

    Contents: the model of [get_drive] and of the nine tools; the
    vocabulary of the properties; sample worlds; then the properties:
    which calls a run makes, that no failure is swallowed, the credential
    behind a handle, and the requests of [upload_file], [move_file],
    [search_drive_files], [list_drive_files], [create_folder] and
    [download_file]. *)

From Stdlib Require Import Ascii.
From stdpp Require Import gmap strings list fin_maps pretty.

Open Scope string_scope.
Open Scope list_scope.

(** ** Python values and exceptions *)

(** An instance of [Exception]: its class name and what [str(e)] returns.
    Interpreter signals that are not [Exception]s ([KeyboardInterrupt],
    [SystemExit]) are outside the model. *)
Record exn := Exn { exn_type : string; exn_msg : string }.

(** What a call into a collaborator answers. *)
Inductive answer (A : Type) : Type :=
| Got (a : A)
| Failed (e : exn).
Arguments Got {A} a.
Arguments Failed {A} e.

(** What running a piece of code gives: a value, a raised exception, or
    no answer within the loop budget ([Diverge], only the download loop can
    produce it; no [except] clause sees it). *)
Inductive outcome (A : Type) : Type :=
| Ok (a : A)
| Raise (e : exn)
| Diverge.
Arguments Ok {A} a.
Arguments Raise {A} e.
Arguments Diverge {A}.

(** JSON-like values: keyword arguments, request bodies and responses. *)
#[local] Unset Elimination Schemes.
Inductive value : Type :=
| VNone
| VBool (b : bool)
| VInt (z : Z)
| VStr (s : string)
| VList (l : list value)
| VDict (d : gmap string value)
| VMedia (path : string) (resumable : bool).
#[local] Set Elimination Schemes.

(** [google.oauth2.credentials.Credentials], as far as [get_drive] reads it.
    [expired] is what the property of that name answers during the
    invocation (the expiry compared with the clock). *)
Record Credentials := Creds {
  token : option string;
  refresh_token : option string;
  expired : bool
}.

(** [creds.valid]: a token is present and the credential is not expired. *)
Definition valid (c : Credentials) : bool :=
  match token c with
  | Some _ => negb (expired c)
  | None => false
  end.

(** Truthiness of an optional string: [None] and [""] are false. *)
Definition truthy (o : option string) : bool :=
  match o with
  | None => false
  | Some s => negb (String.eqb s "")
  end.

(** ** Calls into the collaborators *)

Inductive api_method := MList | MCreate | MDelete | MUpdate | MGet.

(** A call [service.files().<method>(k1=v1, ...)], to be executed. *)
Record request := Request { meth : api_method; kwargs : gmap string value }.

(** What [downloader.next_chunk()] gives back: the bytes it wrote to the
    file handle, the percentage [int(status.progress() * 100)] and [done]. *)
Record chunk := Chunk { chunk_data : string; chunk_pct : Z; chunk_done : bool }.

(** One entry per call that leaves the program, with its result. *)
Inductive event : Type :=
| EvExists (path : string) (found : bool)
| EvUnpickle (path : string) (r : answer (option Credentials))
| EvOpenWrite (path : string) (r : option exn)
| EvOpenRead (path : string) (r : option exn)
| EvRefresh (c : Credentials) (r : answer Credentials)
| EvAuthorize (secrets : string) (scopes : list string) (r : answer Credentials)
| EvExecute (c : Credentials) (req : request) (r : answer (gmap string value))
| EvChunk (c : Credentials) (file_id : string) (r : answer chunk).

(** The external collaborators.  Each answer may depend on everything that
    happened before (the trace).  An [Ext] is the environment of one
    invocation: [pickle_loads] gives what unpickling yields at that time,
    the [expired] flag included; an invocation made later has an
    environment of its own. *)
Record Ext := {
  SCRIPT_DIR : string;
  pickle_loads : string -> answer (option Credentials);
  pickle_dumps : Credentials -> string;
  open_wb : list event -> string -> option exn;
  open_rb : list event -> string -> option exn;
  refresh : list event -> Credentials -> answer Credentials;
  run_local_server : list event -> string -> list string -> answer Credentials;
  execute : list event -> Credentials -> request -> answer (gmap string value);
  next_chunk : list event -> Credentials -> string -> answer chunk;
  py_repr : value -> string
}.

(** ** The world and the monad *)

(** [fs] holds the local paths that exist, each with its content (for a
    directory the content plays no part: it cannot be opened for reading). *)
Record World := {
  fs : gmap string string;
  stderr : list string;
  trace : list event
}.

Definition M (A : Type) : Type := World -> outcome A * World.

Definition ret {A} (a : A) : M A := fun w => (Ok a, w).

Definition bind {A B} (m : M A) (k : A -> M B) : M B :=
  fun w =>
    match m w with
    | (Ok a, w') => k a w'
    | (Raise e, w') => (Raise e, w')
    | (Diverge, w') => (Diverge, w')
    end.

Definition raise {A} (e : exn) : M A := fun w => (Raise e, w).

Module MNotations.
  Notation "'let!' x ':=' m 'in' k" := (bind m (fun x => k))
    (at level 10, x name, m at level 100, k at level 200).
  Notation "m '>>' k" := (bind m (fun _ => k))
    (at level 100, k at level 200, right associativity).
End MNotations.
Import MNotations.

Definition log_line (s : string) (w : World) : World :=
  {| fs := fs w; stderr := stderr w ++ [s]; trace := trace w |}.

Definition record (ev : event) (w : World) : World :=
  {| fs := fs w; stderr := stderr w; trace := trace w ++ [ev] |}.

Definition write_file (p : string) (b : string) (w : World) : World :=
  {| fs := <[p := b]> (fs w); stderr := stderr w; trace := trace w |}.

(** [print(s, file=sys.stderr)] *)
Definition print (s : string) : M unit := fun w => (Ok tt, log_line s w).

(** [try: body  except Exception as e: print(f"ERROR in <name>: {str(e)}",
    file=sys.stderr); raise] *)
Definition try_log {A} (name : string) (body : M A) : M A :=
  fun w =>
    match body w with
    | (Raise e, w') =>
        (Raise e, log_line ("ERROR in " +:+ name +:+ ": " +:+ exn_msg e) w')
    | r => r
    end.

Definition of_answer {A} (r : answer A) : outcome A :=
  match r with
  | Got a => Ok a
  | Failed e => Raise e
  end.

(** ** Paths ([posixpath]) *)

Definition ends_with_slash (p : string) : bool :=
  match last (String.list_ascii_of_string p) with
  | Some c => Ascii.eqb c "/"%char
  | None => false
  end.

(** [os.path.join(a, b)] *)
Definition path_join (a b : string) : string :=
  if String.prefix "/" b then b
  else if String.eqb a "" || ends_with_slash a then a +:+ b
  else a +:+ "/" +:+ b.

(** [os.path.basename(p)]: what follows the last slash. *)
Fixpoint basename (p : string) : string :=
  match p with
  | EmptyString => EmptyString
  | String c rest =>
      if Ascii.eqb c "/"%char then basename rest
      else if existsb (Ascii.eqb "/"%char) (String.list_ascii_of_string rest)
           then basename rest
           else p
  end.

(** ** Module constants *)

Definition SCOPES : list string :=
  [ "https://www.googleapis.com/auth/drive";
    "https://www.googleapis.com/auth/drive.file" ].

Definition CREDENTIALS_FILE (E : Ext) : string :=
  path_join (SCRIPT_DIR E) "credentials.json".

Definition TOKEN_FILE (E : Ext) : string :=
  path_join (SCRIPT_DIR E) "token.pickle".

Definition FileNotFoundError (msg : string) : exn :=
  {| exn_type := "FileNotFoundError"; exn_msg := msg |}.

Definition TypeError (msg : string) : exn :=
  {| exn_type := "TypeError"; exn_msg := msg |}.

(** ** Primitive steps *)

(** [os.path.exists(p)] *)
Definition path_exists (p : string) : M bool :=
  fun w =>
    let b := bool_decide (is_Some (fs w !! p)) in
    (Ok b, record (EvExists p b) w).

(** [with open(p, "rb") as f: pickle.load(f)] *)
Definition pickle_load (E : Ext) (p : string) : M (option Credentials) :=
  fun w =>
    match fs w !! p with
    | Some b =>
        let r := pickle_loads E b in
        (of_answer r, record (EvUnpickle p r) w)
    | None =>
        (Raise (FileNotFoundError
                  ("[Errno 2] No such file or directory: '" +:+ p +:+ "'")), w)
    end.

(** [open(p, "wb")]: the file is created, or truncated if it exists. *)
Definition open_write (E : Ext) (p : string) : M unit :=
  fun w =>
    match open_wb E (trace w) p with
    | Some e => (Raise e, record (EvOpenWrite p (Some e)) w)
    | None => (Ok tt, write_file p "" (record (EvOpenWrite p None) w))
    end.

(** [f.write(b)] on a handle opened on [p] for writing. *)
Definition write_bytes (p : string) (b : string) : M unit :=
  fun w => (Ok tt, write_file p (default "" (fs w !! p) +:+ b) w).

(** [with open(p, "wb") as f: pickle.dump(c, f)] *)
Definition pickle_dump (E : Ext) (p : string) (c : Credentials) : M unit :=
  open_write E p >>
  write_bytes p (pickle_dumps E c).

(** [creds.refresh(Request())]: the credential object as it is afterwards. *)
Definition do_refresh (E : Ext) (c : Credentials) : M Credentials :=
  fun w =>
    let r := refresh E (trace w) c in
    (of_answer r, record (EvRefresh c r) w).

(** [InstalledAppFlow.from_client_secrets_file(CREDENTIALS_FILE, SCOPES)]
    followed by [flow.run_local_server(port=0)]. *)
Definition oauth_flow (E : Ext) (secrets : string) (scopes : list string)
  : M Credentials :=
  fun w =>
    let r := run_local_server E (trace w) secrets scopes in
    (of_answer r, record (EvAuthorize secrets scopes r) w).

(** The object [build("drive", "v3", credentials=creds)] returns; building
    it is local (the discovery document ships with the client library). *)
Record Service := { service_name : string; service_version : string;
                    service_creds : Credentials }.

Definition build (name version : string) (creds : Credentials) : Service :=
  {| service_name := name; service_version := version; service_creds := creds |}.

(** ** get_drive *)

Definition get_drive (E : Ext) : M Service :=
  try_log "get_drive" (
    print "Starting authentication process..." >>
    let! have_secrets := path_exists (CREDENTIALS_FILE E) in
    if negb have_secrets then
      print ("ERROR: credentials.json not found at " +:+ CREDENTIALS_FILE E +:+ "!") >>
      raise (FileNotFoundError ("credentials.json not found at " +:+ CREDENTIALS_FILE E))
    else
      print ("credentials.json found at " +:+ CREDENTIALS_FILE E) >>
      let! have_token := path_exists (TOKEN_FILE E) in
      let! creds :=
        (if have_token then
           print "Loading existing token..." >>
           pickle_load E (TOKEN_FILE E)
         else ret None) in
      let login : M Credentials :=
        print "Starting OAuth flow..." >>
        let! c := oauth_flow E (CREDENTIALS_FILE E) SCOPES in
        print "OAuth flow completed" >>
        ret c in
      let save (renew : M Credentials) : M Credentials :=
        let! c := renew in
        print "Saving token..." >>
        pickle_dump E (TOKEN_FILE E) c >>
        ret c in
      let! creds :=
        match creds with
        | Some c =>
            if valid c then ret c
            else if expired c && truthy (refresh_token c) then
              save (print "Refreshing expired token..." >> do_refresh E c)
            else save login
        | None => save login
        end in
      print "Building Drive service..." >>
      let service := build "drive" "v3" creds in
      print "Drive service ready!" >>
      ret service).

(** ** Python built-ins used on responses *)

Definition type_name (v : value) : string :=
  match v with
  | VNone => "NoneType"
  | VBool _ => "bool"
  | VInt _ => "int"
  | VStr _ => "str"
  | VList _ => "list"
  | VDict _ => "dict"
  | VMedia _ _ => "MediaFileUpload"
  end.

(** [str(v)], as an f-string formats [v]; containers are printed by the
    interpreter's [repr]. *)
Definition py_str (E : Ext) (v : value) : string :=
  match v with
  | VNone => "None"
  | VBool true => "True"
  | VBool false => "False"
  | VInt z => pretty z
  | VStr s => s
  | _ => py_repr E v
  end.

(** [len(v)] *)
Definition py_len (v : value) : M nat :=
  match v with
  | VStr s => ret (String.length s)
  | VList l => ret (length l)
  | VDict d => ret (size d)
  | _ => raise (TypeError ("object of type '" +:+ type_name v +:+ "' has no len()"))
  end.

(** The items of a sequence, all of which must be [str]. *)
Fixpoint str_items (i : nat) (l : list value) : exn + list string :=
  match l with
  | [] => inr []
  | VStr s :: rest =>
      match str_items (S i) rest with
      | inr ss => inr (s :: ss)
      | inl e => inl e
      end
  | v :: _ =>
      inl (TypeError ("sequence item " +:+ pretty i +:+ ": expected str instance, "
                      +:+ type_name v +:+ " found"))
  end.

(** [sep.join(v)]; the order in which a dict yields its keys is not
    tracked by the model (the map's own order is used). *)
Definition py_join (sep : string) (v : value) : M string :=
  match v with
  | VList l =>
      match str_items 0 l with
      | inr ss => ret (String.concat sep ss)
      | inl e => raise e
      end
  | VStr s =>
      ret (String.concat sep
             (map (fun c => String c EmptyString) (String.list_ascii_of_string s)))
  | VDict d => ret (String.concat sep (map fst (map_to_list d)))
  | _ => raise (TypeError "can only join an iterable")
  end.

(** [d.get(key, dflt)] *)
Definition dict_get (d : gmap string value) (key : string) (dflt : value) : value :=
  default dflt (d !! key).

(** [service.files().<method>(k1=v1, ...).execute()] *)
Definition execute_request (E : Ext) (service : Service) (m : api_method)
    (kw : gmap string value) : M (gmap string value) :=
  fun w =>
    let req := {| meth := m; kwargs := kw |} in
    let r := execute E (trace w) (service_creds service) req in
    (of_answer r, record (EvExecute (service_creds service) req r) w).

Definition LIST_FIELDS : string :=
  "files(id, name, mimeType, size, createdTime, modifiedTime, webViewLink)".

(** ** The tools *)

(** [params = {'pageSize': ..., 'fields': ...}; if query: params['q'] = query] *)
Definition list_params (max_results : Z) (query : string) : gmap string value :=
  let params : gmap string value :=
    {[ "pageSize" := VInt max_results; "fields" := VStr LIST_FIELDS ]} in
  if truthy (Some query) then <["q" := VStr query]> params else params.

Definition list_drive_files (E : Ext) (max_results : Z) (query : string) : M value :=
  try_log "list_drive_files" (
    let! service := get_drive E in
    let params := list_params max_results query in
    let! results := execute_request E service MList params in
    let files := dict_get results "files" (VList []) in
    let! n := py_len files in
    print ("Found " +:+ pretty n +:+ " files") >>
    ret files).

(** The f-string [f"name contains '{search_term}'"]. *)
Definition search_query (search_term : string) : string :=
  "name contains '" +:+ search_term +:+ "'".

(** The keyword arguments of the list call of [search_drive_files]. *)
Definition search_params (search_term : string) (max_results : Z)
  : gmap string value :=
  {[ "q" := VStr (search_query search_term); "pageSize" := VInt max_results;
     "fields" := VStr LIST_FIELDS ]}.

Definition search_drive_files (E : Ext) (search_term : string) (max_results : Z)
  : M value :=
  try_log "search_drive_files" (
    let! service := get_drive E in
    let! results :=
      execute_request E service MList (search_params search_term max_results) in
    let files := dict_get results "files" (VList []) in
    let! n := py_len files in
    print ("Found " +:+ pretty n +:+ " files matching '" +:+ search_term +:+ "'") >>
    ret files).

Definition FOLDER_MIME : string := "application/vnd.google-apps.folder".

(** [if parent_folder_id: file_metadata['parents'] = [parent_folder_id]] *)
Definition set_parents (parent_folder_id : option string)
    (file_metadata : gmap string value) : gmap string value :=
  match parent_folder_id with
  | Some p =>
      if truthy parent_folder_id
      then <["parents" := VList [VStr p]]> file_metadata
      else file_metadata
  | None => file_metadata
  end.

(** [a or b] on an optional string [a]. *)
Definition str_or (a : option string) (b : string) : string :=
  match a with
  | Some s => if truthy a then s else b
  | None => b
  end.

(** The [file_metadata] dict of [create_folder]. *)
Definition folder_metadata (folder_name : string)
    (parent_folder_id : option string) : gmap string value :=
  set_parents parent_folder_id
    {[ "name" := VStr folder_name; "mimeType" := VStr FOLDER_MIME ]}.

(** The [file_metadata] dict of [upload_file]. *)
Definition upload_metadata (file_path : string) (file_name : option string)
    (parent_folder_id : option string) : gmap string value :=
  set_parents parent_folder_id
    {[ "name" := VStr (str_or file_name (basename file_path)) ]}.

Definition create_folder (E : Ext) (folder_name : string)
    (parent_folder_id : option string) : M value :=
  try_log "create_folder" (
    let! service := get_drive E in
    let file_metadata := folder_metadata folder_name parent_folder_id in
    let! folder :=
      execute_request E service MCreate
        {[ "body" := VDict file_metadata; "fields" := VStr "id, name, webViewLink" ]} in
    print ("Created folder: " +:+ py_str E (dict_get folder "name" VNone)) >>
    ret (VDict folder)).

(** [MediaFileUpload(path, resumable=...)]: the constructor opens the file
    for reading (and raises if that fails: a directory, a file that may not
    be read); the object stands for the content to send. *)
Definition media_file_upload (E : Ext) (path : string) (resumable : bool) : M value :=
  fun w =>
    let r := open_rb E (trace w) path in
    let w' := record (EvOpenRead path r) w in
    match r with
    | Some e => (Raise e, w')
    | None => (Ok (VMedia path resumable), w')
    end.

Definition upload_file (E : Ext) (file_path : string) (file_name : option string)
    (parent_folder_id : option string) : M value :=
  try_log "upload_file" (
    let! service := get_drive E in
    let! found := path_exists file_path in
    if negb found then
      raise (FileNotFoundError ("File not found: " +:+ file_path))
    else
      let file_metadata := upload_metadata file_path file_name parent_folder_id in
      let! media := media_file_upload E file_path true in
      let! file :=
        execute_request E service MCreate
          {[ "body" := VDict file_metadata; "media_body" := media;
             "fields" := VStr "id, name, webViewLink" ]} in
      print ("Uploaded file: " +:+ py_str E (dict_get file "name" VNone)) >>
      ret (VDict file)).

Definition delete_file (E : Ext) (file_id : string) : M value :=
  try_log "delete_file" (
    let! service := get_drive E in
    execute_request E service MDelete {[ "fileId" := VStr file_id ]} >>
    print ("Deleted file with ID: " +:+ file_id) >>
    ret (VDict {[ "success" := VBool true;
                  "message" := VStr ("File " +:+ file_id +:+ " deleted successfully") ]})).

Definition rename_file (E : Ext) (file_id new_name : string) : M value :=
  try_log "rename_file" (
    let! service := get_drive E in
    let! file :=
      execute_request E service MUpdate
        {[ "fileId" := VStr file_id;
           "body" := VDict {[ "name" := VStr new_name ]};
           "fields" := VStr "id, name, webViewLink" ]} in
    print ("Renamed file to: " +:+ py_str E (dict_get file "name" VNone)) >>
    ret (VDict file)).

Definition MOVE_FIELDS : string := "id, name, parents, webViewLink".

(** The keyword arguments of the two calls of [move_file]. *)
Definition parents_params (file_id : string) : gmap string value :=
  {[ "fileId" := VStr file_id; "fields" := VStr "parents" ]}.

Definition move_params (file_id new_parent_folder_id previous_parents : string)
  : gmap string value :=
  {[ "fileId" := VStr file_id;
     "addParents" := VStr new_parent_folder_id;
     "removeParents" := VStr previous_parents;
     "fields" := VStr MOVE_FIELDS ]}.

Definition move_file (E : Ext) (file_id new_parent_folder_id : string) : M value :=
  try_log "move_file" (
    let! service := get_drive E in
    let! file := execute_request E service MGet (parents_params file_id) in
    let! previous_parents := py_join "," (dict_get file "parents" (VList [])) in
    let! file :=
      execute_request E service MUpdate
        (move_params file_id new_parent_folder_id previous_parents) in
    print "Moved file to new folder" >>
    ret (VDict file)).

Definition INFO_FIELDS : string :=
  "id, name, mimeType, size, createdTime, modifiedTime, webViewLink, owners, permissions".

Definition get_file_info (E : Ext) (file_id : string) : M value :=
  try_log "get_file_info" (
    let! service := get_drive E in
    let! file :=
      execute_request E service MGet
        {[ "fileId" := VStr file_id; "fields" := VStr INFO_FIELDS ]} in
    ret (VDict file)).

Definition diverge {A} : M A := fun w => (Diverge, w).

(** [downloader.next_chunk()]: one ranged request; on success the bytes
    received are written to the file handle. *)
Definition fetch_chunk (E : Ext) (service : Service) (file_id dest : string)
  : M chunk :=
  fun w =>
    let r := next_chunk E (trace w) (service_creds service) file_id in
    let w' := record (EvChunk (service_creds service) file_id r) w in
    match r with
    | Got ch => write_bytes dest (chunk_data ch) >> ret ch
    | Failed e => raise e
    end w'.

(** [done = False; while not done: status, done = downloader.next_chunk(); print(...)]
    with a bound on the number of iterations. *)
Fixpoint download_loop (E : Ext) (fuel : nat) (service : Service)
    (file_id dest : string) : M unit :=
  match fuel with
  | O => diverge
  | S fuel' =>
      let! ch := fetch_chunk E service file_id dest in
      print ("Download progress: " +:+ pretty (chunk_pct ch) +:+ "%") >>
      if chunk_done ch then ret tt
      else download_loop E fuel' service file_id dest
  end.

Definition download_file (E : Ext) (fuel : nat) (file_id destination_path : string)
  : M value :=
  try_log "download_file" (
    let! service := get_drive E in
    open_write E destination_path >>
    download_loop E fuel service file_id destination_path >>
    print ("Downloaded file to: " +:+ destination_path) >>
    ret (VDict {[ "success" := VBool true; "path" := VStr destination_path ]})).

(** ** Tool invocations *)

(** A call of a tool as the protocol server makes it; [None] stands for an
    argument that was left out. *)
Inductive tool_call :=
| ListDriveFiles (max_results : option Z) (query : option string)
| SearchDriveFiles (search_term : string) (max_results : option Z)
| CreateFolder (folder_name : string) (parent_folder_id : option string)
| UploadFile (file_path : string) (file_name parent_folder_id : option string)
| DeleteFile (file_id : string)
| DownloadFile (file_id destination_path : string)
| RenameFile (file_id new_name : string)
| MoveFile (file_id new_parent_folder_id : string)
| GetFileInfo (file_id : string).

Definition tool_name (t : tool_call) : string :=
  match t with
  | ListDriveFiles _ _ => "list_drive_files"
  | SearchDriveFiles _ _ => "search_drive_files"
  | CreateFolder _ _ => "create_folder"
  | UploadFile _ _ _ => "upload_file"
  | DeleteFile _ => "delete_file"
  | DownloadFile _ _ => "download_file"
  | RenameFile _ _ => "rename_file"
  | MoveFile _ _ => "move_file"
  | GetFileInfo _ => "get_file_info"
  end.

(** Defaults are those of the signatures: [max_results = 10], [query = ""],
    the others [None]. *)
Definition run_tool (E : Ext) (fuel : nat) (t : tool_call) : M value :=
  match t with
  | ListDriveFiles max_results query =>
      list_drive_files E (default 10%Z max_results) (default "" query)
  | SearchDriveFiles search_term max_results =>
      search_drive_files E search_term (default 10%Z max_results)
  | CreateFolder folder_name parent_folder_id =>
      create_folder E folder_name parent_folder_id
  | UploadFile file_path file_name parent_folder_id =>
      upload_file E file_path file_name parent_folder_id
  | DeleteFile file_id => delete_file E file_id
  | DownloadFile file_id destination_path =>
      download_file E fuel file_id destination_path
  | RenameFile file_id new_name => rename_file E file_id new_name
  | MoveFile file_id new_parent_folder_id =>
      move_file E file_id new_parent_folder_id
  | GetFileInfo file_id => get_file_info E file_id
  end.

(** ** Vocabulary for the properties *)

(** The exception a call ended with, if it failed. *)
Definition failure_of (ev : event) : option exn :=
  match ev with
  | EvUnpickle _ (Failed e) => Some e
  | EvOpenWrite _ (Some e) => Some e
  | EvOpenRead _ (Some e) => Some e
  | EvRefresh _ (Failed e) => Some e
  | EvAuthorize _ _ (Failed e) => Some e
  | EvExecute _ _ (Failed e) => Some e
  | EvChunk _ _ (Failed e) => Some e
  | _ => None
  end.

(** Calls that go over the network: to the identity provider or to the
    storage service. *)
Definition is_remote (ev : event) : bool :=
  match ev with
  | EvRefresh _ _ | EvAuthorize _ _ _ | EvExecute _ _ _ | EvChunk _ _ _ => true
  | _ => false
  end.

(** Requests to the storage service. *)
Definition is_storage (ev : event) : bool :=
  match ev with
  | EvExecute _ _ _ | EvChunk _ _ _ => true
  | _ => false
  end.

Definition same_method (a b : api_method) : bool :=
  match a, b with
  | MList, MList | MCreate, MCreate | MDelete, MDelete
  | MUpdate, MUpdate | MGet, MGet => true
  | _, _ => false
  end.

(** Executed requests [service.files().<m>(...)]. *)
Definition is_call (m : api_method) (ev : event) : bool :=
  match ev with
  | EvExecute _ req _ => same_method m (meth req)
  | _ => false
  end.

(** Every call made by [m] satisfies [P]. *)
Definition emits {A} (P : event -> Prop) (m : M A) : Prop :=
  forall w, exists new, trace (m w).2 = trace w ++ new /\ Forall P new.

(** The exceptions the program raises by itself, not on behalf of a
    collaborator. *)
Definition raised_by_code (e : exn) : Prop :=
  exn_type e = "FileNotFoundError" \/ exn_type e = "TypeError".

Definition succeeded (ev : event) : Prop := failure_of ev = None.

(** How a result relates to the calls made on the way: a failed call is the
    last call, and its exception is the result. *)
Definition faithful_run {A} (r : outcome A) (new : list event) : Prop :=
  match r with
  | Raise e =>
      (Forall succeeded new /\ raised_by_code e) \/
      (exists pre ev, new = pre ++ [ev] /\ Forall succeeded pre /\
                      failure_of ev = Some e)
  | _ => Forall succeeded new
  end.

Definition faithful {A} (m : M A) : Prop :=
  forall w, exists new, trace (m w).2 = trace w ++ new /\ faithful_run (m w).1 new.

(** A persisted credential that a refresh call makes valid again. *)
Definition refreshable (E : Ext) (c : Credentials) : Prop :=
  expired c = true /\ truthy (refresh_token c) = true /\
  forall tr c', refresh E tr c = Got c' -> valid c' = true.

(** What the token store holds. *)
Definition persisted (E : Ext) (w : World) (c : Credentials) : Prop :=
  exists b, fs w !! TOKEN_FILE E = Some b /\ pickle_loads E b = Got (Some c).

(** The names listed in a [fields] selector such as ["id, name"]. *)
Fixpoint split_commas (s : string) : list string :=
  match s with
  | EmptyString => [EmptyString]
  | String c rest =>
      if Ascii.eqb c ","%char then EmptyString :: split_commas rest
      else match split_commas rest with
           | x :: xs => String c x :: xs
           | [] => [String c EmptyString]
           end
  end.

Fixpoint lstrip (s : string) : string :=
  match s with
  | String c rest => if Ascii.eqb c " "%char then lstrip rest else s
  | EmptyString => EmptyString
  end.

Definition mask_fields (mask : string) : list string :=
  map lstrip (split_commas mask).

(** Position of the first single quote of a string. *)
Fixpoint find_quote (s : string) : option nat :=
  match s with
  | EmptyString => None
  | String c rest =>
      if Ascii.eqb c "'"%char then Some 0
      else option_map S (find_quote rest)
  end.

(** [s[n:]] *)
Fixpoint string_drop (n : nat) (s : string) : string :=
  match n, s with
  | S n', String _ rest => string_drop n' rest
  | _, _ => s
  end.

(** The bytes of the chunks that arrived. *)
Fixpoint received (answers : list (answer chunk)) : string :=
  match answers with
  | [] => ""
  | Got ch :: rest => chunk_data ch +:+ received rest
  | Failed _ :: rest => received rest
  end.

(** A chunk that arrived and was not the last one. *)
Definition more_to_come (a : answer chunk) : Prop :=
  exists ch, a = Got ch /\ chunk_done ch = false.

(** A chunk answer after which the loop stops: the last chunk or a failure. *)
Definition stops (a : answer chunk) : bool :=
  match a with
  | Got ch => chunk_done ch
  | Failed _ => true
  end.

Definition is_chunk (ev : event) : bool :=
  match ev with
  | EvChunk _ _ _ => true
  | _ => false
  end.

(** Chunk requests made so far. *)
Definition count_chunks (tr : list event) : nat :=
  length (List.filter is_chunk tr).

(** The download of [file_id] ends, by a last chunk or a failure, at the
    latest once [n] chunks were requested. *)
Definition ends_within (E : Ext) (c : Credentials) (file_id : string) (n : nat) : Prop :=
  forall tr, n <= count_chunks tr -> stops (next_chunk E tr c file_id) = true.

(** ** Sample worlds *)

Module Scenario.

Definition fresh_token : Credentials := Creds (Some "ya29.new") (Some "1//rt") false.
Definition good_token : Credentials := Creds (Some "ya29.good") (Some "1//rt") false.
Definition stale_token : Credentials := Creds (Some "ya29.old") (Some "1//rt") true.
Definition no_token : Credentials := Creds None (Some "1//rt") false.

Definition refresh_error : exn :=
  Exn "RefreshError" "invalid_grant: Token has been expired or revoked.".
Definition http_error : exn :=
  Exn "HttpError" "<HttpError 500 when requesting media returned Internal Error>".

Definition moved_file : gmap string value :=
  {[ "id" := VStr "f1"; "name" := VStr "notes.txt";
     "parents" := VList [VStr "dst"];
     "webViewLink" := VStr "https://drive.google.com/file/d/f1/view" ]}.

Definition report_file : gmap string value :=
  {[ "id" := VStr "r1"; "name" := VStr "report.pdf" ]}.

(** An environment whose identity provider refreshes iff [refresh_ok],
    and whose second media chunk fails. *)
Definition ext (refresh_ok : bool) : Ext := {|
  SCRIPT_DIR := "/srv/app";
  pickle_loads := fun b =>
    if String.eqb b "good" then Got (Some good_token)
    else if String.eqb b "stale" then Got (Some stale_token)
    else if String.eqb b "bare" then Got (Some no_token)
    else if String.eqb b "fresh" then Got (Some fresh_token)
    else Failed (Exn "UnpicklingError" "invalid load key");
  pickle_dumps := fun c =>
    match token c with
    | None => "bare"
    | Some _ => if expired c then "stale" else "fresh"
    end;
  open_wb := fun _ _ => None;
  open_rb := fun _ _ => None;
  refresh := fun _ _ => if refresh_ok then Got fresh_token else Failed refresh_error;
  run_local_server := fun _ _ _ => Got fresh_token;
  execute := fun _ _ req =>
    match meth req with
    | MGet => Got {[ "parents" := VList [VStr "src1"; VStr "src2"] ]}
    | MUpdate => Got moved_file
    | MList => Got {[ "files" := VList [VDict report_file] ]}
    | _ => Got ∅
    end;
  next_chunk := fun tr _ _ =>
    if decide (count_chunks tr = 0) then Got (Chunk "abc" 50 false)
    else Failed http_error;
  py_repr := fun _ => "<object>"
|}.

Definition disk (token_bytes : option string) (secrets : bool) : gmap string string :=
  let d : gmap string string :=
    match token_bytes with
    | Some b => {[ "/srv/app/token.pickle" := b ]}
    | None => ∅
    end in
  if secrets then <["/srv/app/credentials.json" := "{}"]> d else d.

Definition world (token_bytes : option string) (secrets : bool) : World :=
  {| fs := disk token_bytes secrets; stderr := []; trace := [] |}.

End Scenario.

(** ** Vocabulary for the tools as a whole *)

(** A run that changes no local file outside [paths]. *)
Definition touches_only {A} (paths : list string) (m : M A) : Prop :=
  forall w p, p ∉ paths -> fs (m w).2 !! p = fs w !! p.

(** The calls the code of a tool makes once it holds the handle [s]:
    requests executed through [s], look-ups of local paths and opening a
    file, for reading or for writing; it does not read the token file and
    calls neither [refresh] nor the authorization flow. *)
Definition after_acquisition (s : Service) (ev : event) : Prop :=
  match ev with
  | EvExecute c _ _ | EvChunk c _ _ => c = service_creds s
  | EvExists _ _ | EvOpenWrite _ _ | EvOpenRead _ _ => True
  | _ => False
  end.

(** The same, tool by tool: requests are executed through [s]; only
    [upload_file] looks up a path and opens it for reading, and the path is
    its [file_path]; only [download_file] opens a file for writing, its
    destination, and fetches chunks, those of its [file_id]. *)
Definition own_call (t : tool_call) (s : Service) (ev : event) : Prop :=
  match ev with
  | EvExecute c _ _ => c = service_creds s
  | EvChunk c fid _ => c = service_creds s /\ exists dest, t = DownloadFile fid dest
  | EvExists p _ | EvOpenRead p _ => exists name parent, t = UploadFile p name parent
  | EvOpenWrite p _ => exists fid, t = DownloadFile fid p
  | _ => False
  end.

(** Values [len] accepts, and values [join] can iterate over. *)
Definition has_len (v : value) : bool :=
  match v with
  | VStr _ | VList _ | VDict _ => true
  | _ => false
  end.

Definition iterable (v : value) : bool :=
  match v with
  | VStr _ | VList _ | VDict _ => true
  | _ => false
  end.

(** The local path a tool invocation writes to, if any. *)
Definition destination (t : tool_call) : list string :=
  match t with
  | DownloadFile _ destination_path => [destination_path]
  | _ => []
  end.

(** The chunks that arrived, in order. *)
Fixpoint arrived (answers : list (answer chunk)) : list chunk :=
  match answers with
  | [] => []
  | Got ch :: rest => ch :: arrived rest
  | Failed _ :: rest => arrived rest
  end.

(** The line [download_file] prints after a chunk. *)
Definition progress_line (ch : chunk) : string :=
  "Download progress: " +:+ pretty (chunk_pct ch) +:+ "%".

Definition has_slash (s : string) : bool :=
  existsb (Ascii.eqb "/"%char) (String.list_ascii_of_string s).

(** ** More sample worlds *)

Module Lab.

Definition permission_error (p : string) : exn :=
  Exn "PermissionError" ("[Errno 13] Permission denied: '" +:+ p +:+ "'").

Definition not_found : exn :=
  Exn "HttpError" "<HttpError 404 when requesting file returned File not found>".

(** The environment of [Scenario.ext true], except that the paths in
    [locked] cannot be opened for writing, the storage methods in [failing]
    answer 404, and the media chunks answer as listed in [chunks] (a failure
    once the list is used up). *)
Definition ext (locked : list string) (failing : list api_method)
    (chunks : list (answer chunk)) : Ext := {|
  SCRIPT_DIR := SCRIPT_DIR (Scenario.ext true);
  pickle_loads := pickle_loads (Scenario.ext true);
  pickle_dumps := pickle_dumps (Scenario.ext true);
  open_wb := fun _ p =>
    if existsb (String.eqb p) locked then Some (permission_error p) else None;
  open_rb := open_rb (Scenario.ext true);
  refresh := refresh (Scenario.ext true);
  run_local_server := run_local_server (Scenario.ext true);
  execute := fun tr c req =>
    if existsb (same_method (meth req)) failing then Failed not_found
    else execute (Scenario.ext true) tr c req;
  next_chunk := fun tr _ _ =>
    default (Failed Scenario.http_error) (chunks !! count_chunks tr);
  py_repr := py_repr (Scenario.ext true)
|}.

Definition is_a_directory (p : string) : exn :=
  Exn "IsADirectoryError" ("[Errno 21] Is a directory: '" +:+ p +:+ "'").

(** The environment of [Scenario.ext true], except that the paths in
    [dirs] are directories: they exist and cannot be opened for reading. *)
Definition with_dirs (dirs : list string) : Ext := {|
  SCRIPT_DIR := SCRIPT_DIR (Scenario.ext true);
  pickle_loads := pickle_loads (Scenario.ext true);
  pickle_dumps := pickle_dumps (Scenario.ext true);
  open_wb := open_wb (Scenario.ext true);
  open_rb := fun _ p =>
    if existsb (String.eqb p) dirs then Some (is_a_directory p) else None;
  refresh := refresh (Scenario.ext true);
  run_local_server := run_local_server (Scenario.ext true);
  execute := execute (Scenario.ext true);
  next_chunk := next_chunk (Scenario.ext true);
  py_repr := py_repr (Scenario.ext true)
|}.

Definition budget_file : gmap string value :=
  {[ "id" := VStr "r2"; "name" := VStr "report-budget.xlsx" ]}.

(** The environment of [Scenario.ext true], except that the storage
    service answers a list request with two files whatever the page size,
    and an update request with an empty object. *)
Definition terse : Ext := {|
  SCRIPT_DIR := SCRIPT_DIR (Scenario.ext true);
  pickle_loads := pickle_loads (Scenario.ext true);
  pickle_dumps := pickle_dumps (Scenario.ext true);
  open_wb := open_wb (Scenario.ext true);
  open_rb := open_rb (Scenario.ext true);
  refresh := refresh (Scenario.ext true);
  run_local_server := run_local_server (Scenario.ext true);
  execute := fun tr c req =>
    match meth req with
    | MList =>
        Got {[ "files" := VList [VDict Scenario.report_file; VDict budget_file] ]}
    | MUpdate => Got ∅
    | _ => execute (Scenario.ext true) tr c req
    end;
  next_chunk := next_chunk (Scenario.ext true);
  py_repr := py_repr (Scenario.ext true)
|}.


(** The environment of [Scenario.ext true], except that the storage
    service answers a list request with [{"files": None}] and a get request
    with [{"parents": None}]. *)
Definition hollow : Ext := {|
  SCRIPT_DIR := SCRIPT_DIR (Scenario.ext true);
  pickle_loads := pickle_loads (Scenario.ext true);
  pickle_dumps := pickle_dumps (Scenario.ext true);
  open_wb := open_wb (Scenario.ext true);
  open_rb := open_rb (Scenario.ext true);
  refresh := refresh (Scenario.ext true);
  run_local_server := run_local_server (Scenario.ext true);
  execute := fun tr c req =>
    match meth req with
    | MList => Got {[ "files" := VNone ]}
    | MGet => Got {[ "parents" := VNone ]}
    | _ => execute (Scenario.ext true) tr c req
    end;
  next_chunk := next_chunk (Scenario.ext true);
  py_repr := py_repr (Scenario.ext true)
|}.

End Lab.

(** * Properties *)

#[local] Arguments CREDENTIALS_FILE : simpl never.
#[local] Arguments TOKEN_FILE : simpl never.
#[local] Arguments String.append : simpl never.

(** ** Paths *)

Example path_join_script_dir :
  path_join "/srv/app" "token.pickle" = "/srv/app/token.pickle" /\
  path_join "/" "token.pickle" = "/token.pickle" /\
  path_join "" "token.pickle" = "token.pickle".
Proof. repeat split. Qed.

Example basename_examples :
  basename "/home/u/notes.txt" = "notes.txt" /\
  basename "notes.txt" = "notes.txt" /\
  basename "/home/u/" = "" /\
  basename "" = "".
Proof. repeat split. Qed.

(** ** The monad *)

Lemma bind_ok {A B} (m : M A) (k : A -> M B) w a w' :
  m w = (Ok a, w') -> bind m k w = k a w'.
Proof. intros H. unfold bind. by rewrite H. Qed.

Lemma bind_raise {A B} (m : M A) (k : A -> M B) w e w' :
  m w = (Raise e, w') -> bind m k w = (Raise e, w').
Proof. intros H. unfold bind. by rewrite H. Qed.

Lemma try_log_raise {A} name (body : M A) w e w' :
  body w = (Raise e, w') ->
  try_log name body w =
    (Raise e, log_line ("ERROR in " +:+ name +:+ ": " +:+ exn_msg e) w').
Proof. intros H. unfold try_log. by rewrite H. Qed.

Lemma path_exists_found p w x :
  fs w !! p = Some x -> path_exists p w = (Ok true, record (EvExists p true) w).
Proof.
  intros H. unfold path_exists. rewrite bool_decide_true; [done | by rewrite H].
Qed.

Lemma path_exists_missing p w :
  fs w !! p = None -> path_exists p w = (Ok false, record (EvExists p false) w).
Proof.
  intros H. unfold path_exists. rewrite bool_decide_false; [done |].
  rewrite H. by intros [? ?].
Qed.

Lemma world_eq (w : World) f s t :
  fs w = f -> stderr w = s -> trace w = t ->
  w = {| fs := f; stderr := s; trace := t |}.
Proof. destruct w; simpl; by intros -> -> ->. Qed.

(** ** get_drive, path by path *)

(** The client-secret file is looked for first; without it nothing else
    happens. *)
Lemma get_drive_no_secrets E w :
  fs w !! CREDENTIALS_FILE E = None ->
  get_drive E w =
    (Raise (FileNotFoundError ("credentials.json not found at " +:+ CREDENTIALS_FILE E)),
     {| fs := fs w;
        stderr := stderr w ++
          [ "Starting authentication process...";
            "ERROR: credentials.json not found at " +:+ CREDENTIALS_FILE E +:+ "!";
            "ERROR in get_drive: credentials.json not found at " +:+ CREDENTIALS_FILE E ];
        trace := trace w ++ [EvExists (CREDENTIALS_FILE E) false] |}).
Proof.
  intros Hs. unfold get_drive, try_log. cbn. rewrite Hs. cbn.
  f_equal. apply world_eq; cbn; try done.
  by rewrite <- !app_assoc.
Qed.

(** Symbolic execution: open the monad and split on whatever a run is
    waiting for. *)
Ltac munfold :=
  unfold bind, ret, raise, diverge, print, path_exists, pickle_load, pickle_dump,
    open_write, write_bytes, do_refresh, oauth_flow, execute_request, of_answer,
    media_file_upload, try_log in *.

Ltac split_run H :=
  match type of H with
  | context [match ?x with _ => _ end] =>
      lazymatch x with
      | context [match _ with _ => _ end] => fail
      | _ => destruct x eqn:?
      end
  | context [if ?x then _ else _] =>
      lazymatch x with
      | context [match _ with _ => _ end] => fail
      | context [if _ then _ else _] => fail
      | _ => destruct x eqn:?
      end
  end.

Ltac run_in H :=
  repeat (progress munfold); cbn in H;
  repeat (split_run H; cbn in H; simplify_eq).

Lemma get_drive_ok_inv E w s w' :
  get_drive E w = (Ok s, w') ->
  exists creds, s = build "drive" "v3" creds /\
    ( (persisted E w creds /\ valid creds = true)
    \/ (exists c tr, persisted E w c /\ valid c = false /\ expired c = true /\
          truthy (refresh_token c) = true /\ refresh E tr c = Got creds)
    \/ ((exists tr, run_local_server E tr (CREDENTIALS_FILE E) SCOPES = Got creds) /\
        forall c, persisted E w c ->
          valid c = false /\ expired c && truthy (refresh_token c) = false) ).
Proof.
  unfold get_drive, persisted. intros H. run_in H.
  all: repeat match goal with
         | H : _ && _ = true |- _ => apply andb_true_iff in H as [? ?]
         end.
  all: eexists; split; [done|].
  - left. eauto.
  - right; left. eauto 10.
  - right; right. split; [eauto|].
    intros c' (b' & ? & ?); simplify_eq.
    assert (c' = c) as -> by congruence. by split.
  - right; right. split; [eauto|].
    intros c' (b' & ? & ?); simplify_eq. congruence.
  - right; right. split; [eauto|].
    intros c' (b & Hb & ?).
    match goal with H : bool_decide _ = false |- _ => rewrite Hb in H; done end.
Qed.

(** ** Which calls a run makes *)

Section Emits.
Context {P : event -> Prop}.

Lemma emits_ret {A} (a : A) : emits P (ret a).
Proof. intros w. exists []. by rewrite app_nil_r. Qed.

Lemma emits_raise {A} e : emits P (@raise A e).
Proof. intros w. exists []. by rewrite app_nil_r. Qed.

Lemma emits_diverge {A} : emits P (@diverge A).
Proof. intros w. exists []. by rewrite app_nil_r. Qed.

Lemma emits_print s : emits P (print s).
Proof. intros w. exists []. by rewrite app_nil_r. Qed.

Lemma emits_write_bytes p b : emits P (write_bytes p b).
Proof. intros w. exists []. by rewrite app_nil_r. Qed.

Lemma emits_bind {A B} (m : M A) (k : A -> M B) :
  emits P m -> (forall a, emits P (k a)) -> emits P (bind m k).
Proof.
  intros Hm Hk w. destruct (Hm w) as (new1 & Ht1 & HP1).
  unfold bind. destruct (m w) as [[a|e|] w1]; cbn in *; [|by eauto..].
  destruct (Hk a w1) as (new2 & Ht2 & HP2).
  exists (new1 ++ new2). rewrite Ht2, Ht1, app_assoc. split; [done|].
  by apply Forall_app.
Qed.

Lemma emits_try_log {A} name (m : M A) : emits P m -> emits P (try_log name m).
Proof.
  intros Hm w. destruct (Hm w) as (new & Ht & HP).
  unfold try_log. destruct (m w) as [[a|e|] w1]; cbn in *; eauto.
Qed.

Lemma emits_one {A} (m : M A) :
  (forall w, exists ev, trace (m w).2 = trace w ++ [ev] /\ P ev) -> emits P m.
Proof. intros H w. destruct (H w) as (ev & ? & ?). exists [ev]. eauto. Qed.

Lemma emits_path_exists p : (forall b, P (EvExists p b)) -> emits P (path_exists p).
Proof. intros H. apply emits_one. intros w. eexists; split; [done|]. apply H. Qed.

Lemma emits_pickle_load E p :
  (forall r, P (EvUnpickle p r)) -> emits P (pickle_load E p).
Proof.
  intros H w. unfold pickle_load. destruct (fs w !! p).
  - eexists [_]. split; [done|]. eauto.
  - exists []. by rewrite app_nil_r.
Qed.

Lemma emits_open_write E p : (forall r, P (EvOpenWrite p r)) -> emits P (open_write E p).
Proof.
  intros H. apply emits_one. intros w. unfold open_write.
  destruct (open_wb E (trace w) p); eexists; (split; [done|]); apply H.
Qed.

Lemma emits_media_file_upload E p res :
  (forall r, P (EvOpenRead p r)) -> emits P (media_file_upload E p res).
Proof.
  intros H. apply emits_one. intros w. unfold media_file_upload.
  destruct (open_rb E (trace w) p); eexists; (split; [done|]); apply H.
Qed.

Lemma emits_do_refresh E c : (forall r, P (EvRefresh c r)) -> emits P (do_refresh E c).
Proof. intros H. apply emits_one. intros w. eexists; split; [done|]. apply H. Qed.

Lemma emits_oauth_flow E p sc :
  (forall r, P (EvAuthorize p sc r)) -> emits P (oauth_flow E p sc).
Proof. intros H. apply emits_one. intros w. eexists; split; [done|]. apply H. Qed.

Lemma emits_execute_request E s m kw :
  (forall r, P (EvExecute (service_creds s) (Request m kw) r)) ->
  emits P (execute_request E s m kw).
Proof. intros H. apply emits_one. intros w. eexists; split; [done|]. apply H. Qed.

Lemma emits_fetch_chunk E s fid dest :
  (forall r, P (EvChunk (service_creds s) fid r)) -> emits P (fetch_chunk E s fid dest).
Proof.
  intros H. apply emits_one. intros w. unfold fetch_chunk.
  destruct (next_chunk E (trace w) (service_creds s) fid);
    eexists; (split; [done|]); apply H.
Qed.

Lemma emits_py_len v : emits P (py_len v).
Proof. destruct v; first [apply emits_ret | apply emits_raise]. Qed.

Lemma emits_py_join sep v : emits P (py_join sep v).
Proof.
  destruct v; cbn; try first [apply emits_ret | apply emits_raise].
  destruct (str_items 0 l); first [apply emits_ret | apply emits_raise].
Qed.
End Emits.

(** Structural proof of an [emits] goal; what is left are the side
    conditions on the calls themselves. *)
Ltac emits_step :=
  first
    [ apply emits_ret | apply emits_raise | apply emits_diverge | apply emits_print
    | apply emits_write_bytes | apply emits_py_len | apply emits_py_join
    | apply emits_try_log
    | apply emits_bind; [| intros ?]
    | apply emits_path_exists; intros ?
    | apply emits_pickle_load; intros ?
    | apply emits_open_write; intros ?
    | apply emits_media_file_upload; intros ?
    | apply emits_do_refresh; intros ?
    | apply emits_oauth_flow; intros ?
    | apply emits_execute_request; intros ?
    | apply emits_fetch_chunk; intros ?
    | match goal with
      | |- emits _ (if ?b then _ else _) => destruct b
      | |- emits _ (match ?x with _ => _ end) => destruct x
      end ].

Lemma emits_pickle_dump {P : event -> Prop} E p c :
  (forall r, P (EvOpenWrite p r)) -> emits P (pickle_dump E p c).
Proof. intros H. unfold pickle_dump. repeat emits_step. apply H. Qed.

(** [get_drive] talks to the file system and to the identity provider,
    never to the storage service. *)
Lemma get_drive_emits E : emits (fun ev => is_storage ev = false) (get_drive E).
Proof.
  unfold get_drive. cbv zeta.
  repeat first [emits_step | apply emits_pickle_dump; intros ?]; done.
Qed.

(** ** No failure is swallowed *)

Lemma faithful_run_app {A} (r : outcome A) new1 new2 :
  Forall succeeded new1 -> faithful_run r new2 -> faithful_run r (new1 ++ new2).
Proof.
  intros H1. destruct r as [a|e|]; cbn.
  - intros H2. by apply Forall_app.
  - intros [[H2 Hc] | (pre & ev & -> & Hpre & Hev)].
    + left. split; [by apply Forall_app | done].
    + right. exists (new1 ++ pre), ev. rewrite app_assoc.
      split; [done|]. split; [by apply Forall_app | done].
  - intros H2. by apply Forall_app.
Qed.

Lemma faithful_ret {A} (a : A) : faithful (ret a).
Proof. intros w. exists []. rewrite app_nil_r. by split; [|constructor]. Qed.

Lemma faithful_diverge {A} : faithful (@diverge A).
Proof. intros w. exists []. rewrite app_nil_r. by split; [|constructor]. Qed.

Lemma faithful_print s : faithful (print s).
Proof. intros w. exists []. rewrite app_nil_r. by split; [|constructor]. Qed.

Lemma faithful_write_bytes p b : faithful (write_bytes p b).
Proof. intros w. exists []. rewrite app_nil_r. by split; [|constructor]. Qed.

Lemma faithful_raise {A} e : raised_by_code e -> faithful (@raise A e).
Proof.
  intros He w. exists []. rewrite app_nil_r. split; [done|]. left. by split.
Qed.

Lemma faithful_bind {A B} (m : M A) (k : A -> M B) :
  faithful m -> (forall a, faithful (k a)) -> faithful (bind m k).
Proof.
  intros Hm Hk w. destruct (Hm w) as (new1 & Ht1 & H1).
  unfold bind. destruct (m w) as [[a|e|] w1]; cbn in *; [|by eauto..].
  destruct (Hk a w1) as (new2 & Ht2 & H2).
  exists (new1 ++ new2). rewrite Ht2, Ht1, app_assoc. split; [done|].
  by apply faithful_run_app.
Qed.

Lemma faithful_try_log {A} name (m : M A) : faithful m -> faithful (try_log name m).
Proof.
  intros Hm w. destruct (Hm w) as (new & Ht & H).
  unfold try_log. destruct (m w) as [[a|e|] w1]; cbn in *; eauto.
Qed.

(** A call that succeeds with a value or fails with the exception that is
    raised. *)
Lemma faithful_call {A} (r : answer A) (ev : event) :
  failure_of ev = match r with Got _ => None | Failed e => Some e end ->
  faithful_run (of_answer r) [ev].
Proof.
  destruct r as [a|e]; cbn; intros H.
  - by repeat constructor.
  - right. exists [], ev. by repeat split.
Qed.

Lemma faithful_path_exists p : faithful (path_exists p).
Proof. intros w. eexists [_]. split; [done|]. cbn. by repeat constructor. Qed.

Lemma faithful_pickle_load E p : faithful (pickle_load E p).
Proof.
  intros w. unfold pickle_load. destruct (fs w !! p) as [b|].
  - eexists [_]. split; [done|]. cbn. apply faithful_call. by destruct (pickle_loads E b).
  - exists []. rewrite app_nil_r. split; [done|]. left. split; [constructor|]. by left.
Qed.

Lemma faithful_open_write E p : faithful (open_write E p).
Proof.
  intros w. unfold open_write. destruct (open_wb E (trace w) p) as [e|] eqn:Ho.
  - eexists [_]. split; [done|]. right. exists [], (EvOpenWrite p (Some e)). by repeat split.
  - eexists [_]. split; [done|]. cbn. by repeat constructor.
Qed.

Lemma faithful_media_file_upload E p res : faithful (media_file_upload E p res).
Proof.
  intros w. unfold media_file_upload.
  destruct (open_rb E (trace w) p) as [e|] eqn:Ho.
  - eexists [_]. split; [done|]. right. exists [], (EvOpenRead p (Some e)). by repeat split.
  - eexists [_]. split; [done|]. cbn. by repeat constructor.
Qed.

Lemma faithful_do_refresh E c : faithful (do_refresh E c).
Proof.
  intros w. eexists [_]. split; [done|]. cbn. apply faithful_call.
  by destruct (refresh E (trace w) c).
Qed.

Lemma faithful_oauth_flow E p sc : faithful (oauth_flow E p sc).
Proof.
  intros w. eexists [_]. split; [done|]. cbn. apply faithful_call.
  by destruct (run_local_server E (trace w) p sc).
Qed.

Lemma faithful_execute_request E s m kw : faithful (execute_request E s m kw).
Proof.
  intros w. eexists [_]. split; [done|]. cbn. apply faithful_call.
  by destruct (execute E (trace w) (service_creds s) _).
Qed.

Lemma faithful_fetch_chunk E s fid dest : faithful (fetch_chunk E s fid dest).
Proof.
  intros w. unfold fetch_chunk.
  destruct (next_chunk E (trace w) (service_creds s) fid) as [ch|e] eqn:Hc.
  - eexists [_]. split; [done|]. cbn. by repeat constructor.
  - eexists [_]. split; [done|]. right. eexists [], _. by repeat split.
Qed.

Lemma faithful_py_len v : faithful (py_len v).
Proof. destruct v; first [apply faithful_ret | apply faithful_raise; by right]. Qed.

Lemma str_items_TypeError i l e : str_items i l = inl e -> exn_type e = "TypeError".
Proof.
  revert i. induction l as [|v l IH]; intros i; cbn; [done|].
  destruct v; try by intros [= <-].
  destruct (str_items (S i) l) eqn:Hl; [|done]. intros [= <-]. eauto.
Qed.

Lemma faithful_py_join sep v : faithful (py_join sep v).
Proof.
  destruct v; cbn; try first [apply faithful_ret | apply faithful_raise; by right].
  destruct (str_items 0 l) eqn:Hl; [|apply faithful_ret].
  apply faithful_raise. right. by eapply str_items_TypeError.
Qed.

Ltac faithful_step :=
  first
    [ apply faithful_ret | apply faithful_diverge | apply faithful_print
    | apply faithful_write_bytes | apply faithful_py_len | apply faithful_py_join
    | apply faithful_try_log
    | apply faithful_path_exists | apply faithful_pickle_load
    | apply faithful_open_write | apply faithful_media_file_upload
    | apply faithful_do_refresh
    | apply faithful_oauth_flow | apply faithful_execute_request
    | apply faithful_fetch_chunk
    | apply faithful_raise; by left
    | apply faithful_bind; [| intros ?]
    | match goal with
      | |- faithful (if ?b then _ else _) => destruct b
      | |- faithful (match ?x with _ => _ end) => destruct x
      end ].

Lemma faithful_pickle_dump E p c : faithful (pickle_dump E p c).
Proof. unfold pickle_dump. repeat faithful_step. Qed.

Lemma faithful_get_drive E : faithful (get_drive E).
Proof.
  unfold get_drive. cbv zeta.
  repeat first [faithful_step | apply faithful_pickle_dump].
Qed.

Lemma faithful_download_loop E fuel s fid dest :
  faithful (download_loop E fuel s fid dest).
Proof.
  induction fuel as [|fuel IH]; cbn; repeat first [faithful_step | apply IH].
Qed.

Lemma faithful_run_tool E fuel t : faithful (run_tool E fuel t).
Proof.
  destruct t; cbn;
    unfold list_drive_files, search_drive_files, create_folder, upload_file,
      delete_file, download_file, rename_file, move_file, get_file_info;
    repeat first [ apply faithful_get_drive | apply faithful_download_loop
                 | faithful_step ].
Qed.

Lemma run_tool_logged E fuel t :
  exists body, run_tool E fuel t = try_log (tool_name t) body.
Proof. destruct t; eexists; reflexivity. Qed.

Lemma failed_call_is_last (new pre post pre' : list event) ev ev' e :
  new = pre ++ ev :: post -> failure_of ev = Some e ->
  new = pre' ++ [ev'] -> Forall succeeded pre' ->
  post = [] /\ ev = ev'.
Proof.
  intros -> Hev Heq Hpre'.
  destruct post as [|x post _] using rev_ind.
  - apply app_inj_tail in Heq as [_ ->]. done.
  - rewrite app_comm_cons, app_assoc in Heq. apply app_inj_tail in Heq as [<- _].
    apply Forall_app in Hpre' as [_ Hev'%Forall_cons_1].
    destruct Hev' as [Hev' _]. unfold succeeded in Hev'. congruence.
Qed.

Lemma no_failure_among_succeeded (new pre post : list event) ev e :
  Forall succeeded new -> new = pre ++ ev :: post -> failure_of ev = Some e -> False.
Proof.
  intros Hall -> Hev. apply Forall_app in Hall as [_ [H _]%Forall_cons_1].
  unfold succeeded in H. congruence.
Qed.

(** ** The credential behind a handle *)

Lemma valid_not_expired c : valid c = true -> valid c = true /\ expired c = false.
Proof.
  unfold valid. destruct (token c); [|done]. by destruct (expired c).
Qed.

Lemma persisted_functional E w c1 c2 :
  persisted E w c1 -> persisted E w c2 -> c1 = c2.
Proof. intros (b1 & Hb1 & Hl1) (b2 & Hb2 & Hl2). congruence. Qed.

(** C1. Whenever [get_drive] returns a handle, the credential behind it
    is the persisted one, found valid, or what a refresh of the persisted
    one gave, or what interactive authorization gave; and when the
    persisted credential is valid or refreshable (expired, with a refresh
    token, and such that a successful refresh call yields a valid
    credential), the credential behind the handle is valid, hence not
    expired. *)
Theorem get_drive_handle_credential_valid E w s w' :
  get_drive E w = (Ok s, w') ->
  ( (persisted E w (service_creds s) /\ valid (service_creds s) = true)
    \/ (exists c tr, persisted E w c /\ expired c = true /\
          truthy (refresh_token c) = true /\ refresh E tr c = Got (service_creds s))
    \/ (exists tr, run_local_server E tr (CREDENTIALS_FILE E) SCOPES
                   = Got (service_creds s)) ) /\
  (forall c, persisted E w c -> valid c = true \/ refreshable E c ->
     valid (service_creds s) = true /\ expired (service_creds s) = false).
Proof.
  intros H. apply get_drive_ok_inv in H as (creds & -> & Hcases). cbn. split.
  - destruct Hcases as [? | [(c & tr & ? & ? & ? & ? & ?) | [? _]]]; eauto 10.
  - intros c Hc Hgood. apply valid_not_expired.
    destruct Hcases as [[_ ?] | [(c0 & tr & Hc0 & Hinv & _ & _ & Hr) | [_ Hnone]]].
    + done.
    + assert (c0 = c) as -> by eauto using persisted_functional.
      destruct Hgood as [? | (_ & _ & Hfresh)]; [congruence | eauto].
    + destruct (Hnone c Hc) as [Hinv Hnr].
      destruct Hgood as [? | (He & Ht & _)]; [congruence|].
      rewrite He, Ht in Hnr. done.
Qed.

(** An expired credential is refreshed and the handle is built on the
    fresh one. *)
Lemma get_drive_handle_credential_valid_witness :
  exists s w',
    get_drive (Scenario.ext true) (Scenario.world (Some "stale") true) = (Ok s, w') /\
    persisted (Scenario.ext true) (Scenario.world (Some "stale") true)
      Scenario.stale_token /\
    refreshable (Scenario.ext true) Scenario.stale_token /\
    service_creds s = Scenario.fresh_token /\
    valid (service_creds s) = true /\ expired (service_creds s) = false.
Proof.
  eexists _, _. split; [vm_compute; reflexivity|].
  assert (Hp : persisted (Scenario.ext true) (Scenario.world (Some "stale") true)
                 Scenario.stale_token).
  { exists "stale". split; vm_compute; reflexivity. }
  assert (Hr : refreshable (Scenario.ext true) Scenario.stale_token).
  { repeat split; try reflexivity. intros tr c' [= <-]. reflexivity. }
  split; [exact Hp|]. split; [exact Hr|]. split; [reflexivity|].
  eapply (get_drive_handle_credential_valid (Scenario.ext true)
            (Scenario.world (Some "stale") true)).
  - vm_compute; reflexivity.
  - exact Hp.
  - right. exact Hr.
Defined.

(** ** get_drive with a usable token store *)

(** With the client-secret file in place and a valid persisted credential,
    the handle is built on that credential after three local look-ups. *)
Lemma get_drive_cached E w x b c :
  fs w !! CREDENTIALS_FILE E = Some x ->
  fs w !! TOKEN_FILE E = Some b ->
  pickle_loads E b = Got (Some c) ->
  valid c = true ->
  get_drive E w =
    (Ok (build "drive" "v3" c),
     {| fs := fs w;
        stderr := stderr w ++
          [ "Starting authentication process...";
            "credentials.json found at " +:+ CREDENTIALS_FILE E;
            "Loading existing token...";
            "Building Drive service...";
            "Drive service ready!" ];
        trace := trace w ++
          [ EvExists (CREDENTIALS_FILE E) true;
            EvExists (TOKEN_FILE E) true;
            EvUnpickle (TOKEN_FILE E) (Got (Some c)) ] |}).
Proof.
  intros Hs Ht Hl Hv. unfold get_drive. repeat (progress munfold). cbn.
  repeat (progress (rewrite ?Hs, ?Ht, ?Hl, ?Hv; cbn)).
  f_equal. apply world_eq; cbn; try done; by rewrite <- !app_assoc.
Qed.

(** When the refresh call fails, its exception leaves [get_drive]; nothing
    is written and no authorization is attempted. *)
Lemma get_drive_refresh_failed E w x b c e :
  fs w !! CREDENTIALS_FILE E = Some x ->
  fs w !! TOKEN_FILE E = Some b ->
  pickle_loads E b = Got (Some c) ->
  expired c = true ->
  truthy (refresh_token c) = true ->
  refresh E (trace w ++ [ EvExists (CREDENTIALS_FILE E) true;
                          EvExists (TOKEN_FILE E) true;
                          EvUnpickle (TOKEN_FILE E) (Got (Some c)) ]) c = Failed e ->
  get_drive E w =
    (Raise e,
     {| fs := fs w;
        stderr := stderr w ++
          [ "Starting authentication process...";
            "credentials.json found at " +:+ CREDENTIALS_FILE E;
            "Loading existing token...";
            "Refreshing expired token...";
            "ERROR in get_drive: " +:+ exn_msg e ];
        trace := trace w ++
          [ EvExists (CREDENTIALS_FILE E) true;
            EvExists (TOKEN_FILE E) true;
            EvUnpickle (TOKEN_FILE E) (Got (Some c));
            EvRefresh c (Failed e) ] |}).
Proof.
  intros Hs Ht Hl He Hrt Hr. unfold get_drive. repeat (progress munfold). cbn.
  assert (Hv : valid c = false) by (unfold valid; rewrite He; by destruct (token c)).
  repeat (progress (rewrite <- ?app_assoc, ?Hs, ?Ht, ?Hl, ?Hv, ?He, ?Hrt, ?Hr; cbn)).
  f_equal. apply world_eq; cbn; try done; by rewrite <- !app_assoc.
Qed.

(** C2, as stated, fails on the code: [get_drive] looks for the
    client-secret file before anything else and raises without it, however
    good the persisted credential is; and a persisted credential that is not
    expired but holds no access token is not used either. *)
Lemma get_drive_cached_needs_secrets_counterexample :
  (persisted (Scenario.ext true) (Scenario.world (Some "good") false)
     Scenario.good_token /\
   expired Scenario.good_token = false /\
   fs (Scenario.world (Some "good") false) !! CREDENTIALS_FILE (Scenario.ext true)
     = None /\
   (get_drive (Scenario.ext true) (Scenario.world (Some "good") false)).1
     = Raise (FileNotFoundError
                "credentials.json not found at /srv/app/credentials.json")) /\
  (persisted (Scenario.ext true) (Scenario.world (Some "bare") true)
     Scenario.no_token /\
   expired Scenario.no_token = false /\
   (get_drive (Scenario.ext true) (Scenario.world (Some "bare") true)).1
     = Ok (build "drive" "v3" Scenario.fresh_token) /\
   Exists (fun ev => is_remote ev = true)
     (trace (get_drive (Scenario.ext true) (Scenario.world (Some "bare") true)).2)).
Proof.
  split.
  - split; [exists "good"; split; vm_compute; reflexivity|].
    repeat split; vm_compute; reflexivity.
  - split; [exists "bare"; split; vm_compute; reflexivity|].
    split; [reflexivity|]. split; [vm_compute; reflexivity|].
    vm_compute. do 3 apply Exists_cons_tl. apply Exists_cons_hd. reflexivity.
Qed.

(** C2, amended.  With a persisted credential that is valid (it holds an
    access token and is not expired): if the client-secret file exists,
    [get_drive] returns a handle built on that credential, having made
    three local look-ups and no network call, and having written nothing;
    if the client-secret file is absent, [get_drive] raises
    [FileNotFoundError] after that one look-up, before the token store is
    read. *)
Theorem get_drive_returns_cached_credential E w c :
  persisted E w c -> valid c = true ->
  (forall x, fs w !! CREDENTIALS_FILE E = Some x ->
     exists w',
       get_drive E w = (Ok (build "drive" "v3" c), w') /\
       fs w' = fs w /\
       trace w' = trace w ++ [ EvExists (CREDENTIALS_FILE E) true;
                               EvExists (TOKEN_FILE E) true;
                               EvUnpickle (TOKEN_FILE E) (Got (Some c)) ] /\
       forall ev, ev ∈ trace w' -> ev ∈ trace w \/ is_remote ev = false) /\
  (fs w !! CREDENTIALS_FILE E = None ->
     exists w',
       get_drive E w =
         (Raise (FileNotFoundError
                   ("credentials.json not found at " +:+ CREDENTIALS_FILE E)), w') /\
       fs w' = fs w /\
       trace w' = trace w ++ [EvExists (CREDENTIALS_FILE E) false]).
Proof.
  intros (b & Hb & Hl) Hv. split.
  - intros x Hx. eexists. split; [by eapply get_drive_cached|].
    cbn. split; [done|]. split; [done|].
    intros ev [?|Hev]%elem_of_app; [by left|right].
    repeat (apply elem_of_cons in Hev as [->|Hev]; [done|]).
    by apply elem_of_nil in Hev.
  - intros Hx. eexists. split; [by apply get_drive_no_secrets|]. done.
Qed.

Lemma get_drive_returns_cached_credential_witness :
  persisted (Scenario.ext true) (Scenario.world (Some "good") true)
    Scenario.good_token /\
  valid Scenario.good_token = true /\
  (get_drive (Scenario.ext true) (Scenario.world (Some "good") true)).1
    = Ok (build "drive" "v3" Scenario.good_token).
Proof.
  assert (Hp : persisted (Scenario.ext true) (Scenario.world (Some "good") true)
                 Scenario.good_token).
  { exists "good". split; vm_compute; reflexivity. }
  split; [exact Hp|]. split; [reflexivity|].
  destruct (get_drive_returns_cached_credential (Scenario.ext true)
              (Scenario.world (Some "good") true) Scenario.good_token Hp eq_refl)
    as [Hfound _].
  destruct (Hfound "{}") as (w' & -> & _); [vm_compute; reflexivity|].
  reflexivity.
Defined.

(** C3, as stated, fails on the code: when the refresh call fails,
    [get_drive] raises that failure; it does not go on to interactive
    authorization (which would have succeeded here) and persists nothing. *)
Lemma get_drive_refresh_failure_counterexample :
  persisted (Scenario.ext false) (Scenario.world (Some "stale") true)
    Scenario.stale_token /\
  expired Scenario.stale_token = true /\
  truthy (refresh_token Scenario.stale_token) = true /\
  (forall tr, refresh (Scenario.ext false) tr Scenario.stale_token
              = Failed Scenario.refresh_error) /\
  (forall tr, run_local_server (Scenario.ext false) tr
                (CREDENTIALS_FILE (Scenario.ext false)) SCOPES
              = Got Scenario.fresh_token) /\
  get_drive (Scenario.ext false) (Scenario.world (Some "stale") true) =
    (Raise Scenario.refresh_error,
     {| fs := Scenario.disk (Some "stale") true;
        stderr :=
          [ "Starting authentication process...";
            "credentials.json found at /srv/app/credentials.json";
            "Loading existing token...";
            "Refreshing expired token...";
            "ERROR in get_drive: invalid_grant: Token has been expired or revoked." ];
        trace :=
          [ EvExists "/srv/app/credentials.json" true;
            EvExists "/srv/app/token.pickle" true;
            EvUnpickle "/srv/app/token.pickle" (Got (Some Scenario.stale_token));
            EvRefresh Scenario.stale_token (Failed Scenario.refresh_error) ] |}).
Proof.
  split; [exists "stale"; split; vm_compute; reflexivity|].
  repeat split; vm_compute; reflexivity.
Qed.

(** C3, amended.  When the persisted credential is expired, holds a
    refresh token, and the refresh call fails, [get_drive] writes
    ["ERROR in get_drive: <message>"] to [stderr] and raises the refresh
    failure itself; the refresh call is the last call it makes (no
    interactive authorization follows) and the token store is left as it
    was. *)
Theorem get_drive_surfaces_refresh_failure E w x c e :
  fs w !! CREDENTIALS_FILE E = Some x ->
  persisted E w c ->
  expired c = true ->
  truthy (refresh_token c) = true ->
  refresh E (trace w ++ [ EvExists (CREDENTIALS_FILE E) true;
                          EvExists (TOKEN_FILE E) true;
                          EvUnpickle (TOKEN_FILE E) (Got (Some c)) ]) c = Failed e ->
  exists w',
    get_drive E w = (Raise e, w') /\
    fs w' = fs w /\
    last (stderr w') = Some ("ERROR in get_drive: " +:+ exn_msg e) /\
    trace w' = trace w ++ [ EvExists (CREDENTIALS_FILE E) true;
                            EvExists (TOKEN_FILE E) true;
                            EvUnpickle (TOKEN_FILE E) (Got (Some c));
                            EvRefresh c (Failed e) ].
Proof.
  intros Hx (b & Hb & Hl) He Hrt Hr.
  eexists. split; [by eapply get_drive_refresh_failed|].
  cbn. split; [done|]. split; [|done].
  by rewrite last_app.
Qed.

Lemma get_drive_surfaces_refresh_failure_witness :
  exists w',
    get_drive (Scenario.ext false) (Scenario.world (Some "stale") true)
      = (Raise Scenario.refresh_error, w') /\
    fs w' = Scenario.disk (Some "stale") true /\
    last (stderr w') =
      Some "ERROR in get_drive: invalid_grant: Token has been expired or revoked.".
Proof.
  destruct (get_drive_surfaces_refresh_failure (Scenario.ext false)
              (Scenario.world (Some "stale") true) "{}" Scenario.stale_token
              Scenario.refresh_error)
    as (w' & Hrun & Hfs & Hlog & _).
  - vm_compute; reflexivity.
  - exists "stale". split; vm_compute; reflexivity.
  - reflexivity.
  - reflexivity.
  - reflexivity.
  - exists w'. split; [exact Hrun|]. split; [exact Hfs | exact Hlog].
Defined.

(** ** upload_file and the local path *)

(** C4, as stated, fails on the code: [upload_file] acquires the handle
    first, so a token refresh (a call to the identity provider) precedes the
    look-up of the local path; and when that acquisition fails, the error
    raised is not the local-file-not-found error. *)
Lemma upload_file_checks_path_late_counterexample :
  fs (Scenario.world (Some "stale") true) !! "/home/u/missing.txt" = None /\
  (upload_file (Scenario.ext true) "/home/u/missing.txt" None None
     (Scenario.world (Some "stale") true)).1
    = Raise (FileNotFoundError "File not found: /home/u/missing.txt") /\
  trace (upload_file (Scenario.ext true) "/home/u/missing.txt" None None
           (Scenario.world (Some "stale") true)).2
    = [ EvExists "/srv/app/credentials.json" true;
        EvExists "/srv/app/token.pickle" true;
        EvUnpickle "/srv/app/token.pickle" (Got (Some Scenario.stale_token));
        EvRefresh Scenario.stale_token (Got Scenario.fresh_token);
        EvOpenWrite "/srv/app/token.pickle" None;
        EvExists "/home/u/missing.txt" false ] /\
  is_remote (EvRefresh Scenario.stale_token (Got Scenario.fresh_token)) = true /\
  (upload_file (Scenario.ext false) "/home/u/missing.txt" None None
     (Scenario.world (Some "stale") true)).1
    = Raise Scenario.refresh_error.
Proof. repeat split; vm_compute; reflexivity. Qed.

(** C4, amended.  When the acquisition of the handle succeeds and
    [file_path] does not exist by then, [upload_file] raises
    [FileNotFoundError("File not found: <file_path>")]; the look-up of the
    path is the only call made after the acquisition, and no request to the
    storage service is made during the whole invocation. *)
Theorem upload_file_missing_path E w file_path file_name parent_folder_id s w1 :
  get_drive E w = (Ok s, w1) ->
  fs w1 !! file_path = None ->
  exists w2,
    upload_file E file_path file_name parent_folder_id w =
      (Raise (FileNotFoundError ("File not found: " +:+ file_path)), w2) /\
    trace w2 = trace w1 ++ [EvExists file_path false] /\
    fs w2 = fs w1 /\
    exists new, trace w2 = trace w ++ new /\
                Forall (fun ev => is_storage ev = false) new.
Proof.
  intros Hg Hmiss. eexists. split.
  { unfold upload_file. apply try_log_raise.
    erewrite bind_ok by exact Hg.
    erewrite bind_ok by (by apply path_exists_missing). reflexivity. }
  cbn. split; [done|]. split; [done|].
  destruct (get_drive_emits E w) as (new & Ht & Hnew). rewrite Hg in Ht. cbn in Ht.
  exists (new ++ [EvExists file_path false]).
  rewrite Ht, app_assoc. split; [done|].
  apply Forall_app. split; [done|]. by repeat constructor.
Qed.

Lemma upload_file_missing_path_witness :
  exists w2,
    upload_file (Scenario.ext true) "/home/u/missing.txt" (Some "notes.txt") None
      (Scenario.world (Some "good") true)
    = (Raise (FileNotFoundError "File not found: /home/u/missing.txt"), w2) /\
    Forall (fun ev => is_storage ev = false) (trace w2).
Proof.
  destruct (upload_file_missing_path (Scenario.ext true)
              (Scenario.world (Some "good") true)
              "/home/u/missing.txt" (Some "notes.txt") None
              (build "drive" "v3" Scenario.good_token)
              (get_drive (Scenario.ext true) (Scenario.world (Some "good") true)).2)
    as (w2 & Hrun & _ & _ & new & Ht & Hnew).
  - vm_compute; reflexivity.
  - vm_compute; reflexivity.
  - exists w2. split; [exact Hrun|]. rewrite Ht. exact Hnew.
Defined.

(** ** Requests to the storage service *)

Lemma str_items_strs i (ps : list string) : str_items i (VStr <$> ps) = inr ps.
Proof.
  revert i. induction ps as [|p ps IH]; intros i; cbn; [done|]. by rewrite IH.
Qed.

Lemma py_join_strs sep (ps : list string) w :
  py_join sep (VList (VStr <$> ps)) w = (Ok (String.concat sep ps), w).
Proof. cbn. by rewrite str_items_strs. Qed.

Lemma no_storage_filter (l : list event) :
  Forall (fun ev => is_storage ev = false) l -> List.filter is_storage l = [].
Proof. induction 1 as [|ev l Hev _ IH]; cbn; [done|]. by rewrite Hev. Qed.

(** The storage requests of an invocation are those made after
    [get_drive]. *)
Lemma storage_after_get_drive E w s w1 (w2 : World) (own : list event) :
  get_drive E w = (Ok s, w1) ->
  trace w2 = trace w1 ++ own ->
  exists new, trace w2 = trace w ++ new /\
              List.filter is_storage new = List.filter is_storage own.
Proof.
  intros Hg Ht. destruct (get_drive_emits E w) as (pre & Hpre & Hns).
  rewrite Hg in Hpre. cbn in Hpre. exists (pre ++ own).
  rewrite Ht, Hpre, app_assoc. split; [done|].
  by rewrite List.filter_app, (no_storage_filter _ Hns).
Qed.

Lemma storage_calls_since E w s w1 (own : list event) :
  get_drive E w = (Ok s, w1) ->
  exists new, trace w1 ++ own = trace w ++ new /\
              List.filter is_storage new = List.filter is_storage own.
Proof.
  intros Hg.
  apply (storage_after_get_drive E w s w1
           {| fs := fs w1; stderr := stderr w1; trace := trace w1 ++ own |} own Hg).
  done.
Qed.

Ltac storage_since Hg :=
  match goal with
  | |- exists new, trace ?w1 ++ ?own = _ /\ _ =>
      let new := fresh "new" in
      let Hf := fresh "Hf" in
      destruct (storage_calls_since _ _ _ w1 own Hg) as (new & ? & Hf);
      exists new; split; [done | exact Hf]
  end.

(** A tool made of [get_drive], one request and some work on the
    response. *)
Lemma run_single_request {A} E name m kw (post : gmap string value -> M A) w s w1 :
  get_drive E w = (Ok s, w1) ->
  try_log name
    (let! service := get_drive E in
     let! resp := execute_request E service m kw in
     post resp) w
  = match execute E (trace w1) (service_creds s) (Request m kw) with
    | Got resp =>
        try_log name (post resp)
          (record (EvExecute (service_creds s) (Request m kw) (Got resp)) w1)
    | Failed e =>
        (Raise e,
         log_line ("ERROR in " +:+ name +:+ ": " +:+ exn_msg e)
           (record (EvExecute (service_creds s) (Request m kw) (Failed e)) w1))
    end.
Proof.
  intros Hg. unfold try_log. rewrite (bind_ok _ _ _ _ _ Hg).
  unfold bind at 1, execute_request.
  by destruct (execute E (trace w1) (service_creds s) (Request m kw)).
Qed.

(** The same, when the work on the response goes on using the handle. *)
Lemma run_first_request {A} E name m kw
    (post : Service -> gmap string value -> M A) w s w1 :
  get_drive E w = (Ok s, w1) ->
  try_log name
    (let! service := get_drive E in
     let! resp := execute_request E service m kw in
     post service resp) w
  = match execute E (trace w1) (service_creds s) (Request m kw) with
    | Got resp =>
        try_log name (post s resp)
          (record (EvExecute (service_creds s) (Request m kw) (Got resp)) w1)
    | Failed e =>
        (Raise e,
         log_line ("ERROR in " +:+ name +:+ ": " +:+ exn_msg e)
           (record (EvExecute (service_creds s) (Request m kw) (Failed e)) w1))
    end.
Proof.
  intros Hg. unfold try_log. rewrite (bind_ok _ _ _ _ _ Hg).
  unfold bind at 1, execute_request.
  by destruct (execute E (trace w1) (service_creds s) (Request m kw)).
Qed.

(** What [search_drive_files] does once the handle is acquired: one list
    call, whose answer decides the result. *)
Lemma search_drive_files_after_get_drive E w search_term max_results s w1 :
  get_drive E w = (Ok s, w1) ->
  let req := Request MList (search_params search_term max_results) in
  let r := execute E (trace w1) (service_creds s) req in
  trace (search_drive_files E search_term max_results w).2
    = trace w1 ++ [EvExecute (service_creds s) req r] /\
  (forall e, r = Failed e ->
     (search_drive_files E search_term max_results w).1 = Raise e) /\
  (forall resp l, r = Got resp -> dict_get resp "files" (VList []) = VList l ->
     (search_drive_files E search_term max_results w).1 = Ok (VList l)).
Proof.
  intros Hg. cbv zeta.
  destruct (execute E (trace w1) (service_creds s)
              (Request MList (search_params search_term max_results)))
    as [resp|e] eqn:Hr; unfold search_drive_files, try_log;
    erewrite bind_ok by exact Hg.
  - erewrite bind_ok by (unfold execute_request; rewrite Hr; reflexivity).
    destruct (dict_get resp "files" (VList [])) eqn:Hd; cbn;
      (split; [done|]); (split; [done|]);
      intros resp' l' [= <-] Hl'; rewrite Hd in Hl'; by simplify_eq.
  - erewrite bind_raise by (unfold execute_request; rewrite Hr; reflexivity).
    cbn. split; [done|]. split; [by intros ? [= <-] | done].
Qed.

(** C6, as stated, fails on the code: the result is the [files] list of
    the response as it is, however long it is.  Against a service that
    answers two files, [search_drive_files("report", 1)] sends one list
    request with page size 1 and returns both records. *)
Lemma search_drive_files_no_truncation_counterexample :
  List.filter is_storage
    (trace (search_drive_files Lab.terse "report" 1
              (Scenario.world (Some "good") true)).2)
    = [ EvExecute Scenario.good_token
          (Request MList
             {[ "q" := VStr "name contains 'report'"; "pageSize" := VInt 1;
                "fields" := VStr LIST_FIELDS ]})
          (Got {[ "files" := VList [VDict Scenario.report_file;
                                    VDict Lab.budget_file] ]}) ] /\
  (search_drive_files Lab.terse "report" 1 (Scenario.world (Some "good") true)).1
    = Ok (VList [VDict Scenario.report_file; VDict Lab.budget_file]) /\
  ~ (exists out,
       (search_drive_files Lab.terse "report" 1
          (Scenario.world (Some "good") true)).1 = Ok (VList out) /\
       (Z.of_nat (length out) <= 1)%Z).
Proof.
  assert (Hres : (search_drive_files Lab.terse "report" 1
                    (Scenario.world (Some "good") true)).1
                 = Ok (VList [VDict Scenario.report_file; VDict Lab.budget_file]))
    by (vm_compute; reflexivity).
  split; [vm_compute; reflexivity|]. split; [exact Hres|].
  intros (out & Hout & Hlen). rewrite Hres in Hout.
  injection Hout as <-. cbn in Hlen. lia.
Qed.

(** C6, amended.  Once the handle is acquired, [search_drive_files] sends
    exactly one request to the storage service, a list request whose filter
    is ["name contains '<search_term>'"] and whose page size is
    [max_results].  The result is the [files] list of the response, as it
    is and whatever its length (the code does not cut it to [max_results]),
    and the empty list when the response has no [files]; a failure of the
    request is raised. *)
Theorem search_drive_files_request E w search_term max_results s w1 :
  get_drive E w = (Ok s, w1) ->
  let req := Request MList
               {[ "q" := VStr ("name contains '" +:+ search_term +:+ "'");
                  "pageSize" := VInt max_results;
                  "fields" :=
                    VStr "files(id, name, mimeType, size, createdTime, modifiedTime, webViewLink)" ]} in
  let r := execute E (trace w1) (service_creds s) req in
  (exists new,
     trace (search_drive_files E search_term max_results w).2 = trace w ++ new /\
     List.filter is_storage new = [EvExecute (service_creds s) req r]) /\
  (forall resp l, r = Got resp -> resp !! "files" = Some (VList l) ->
     (search_drive_files E search_term max_results w).1 = Ok (VList l) /\
     last (stderr (search_drive_files E search_term max_results w).2)
       = Some ("Found " +:+ pretty (length l) +:+ " files matching '"
               +:+ search_term +:+ "'")) /\
  (forall resp, r = Got resp -> resp !! "files" = None ->
     (search_drive_files E search_term max_results w).1 = Ok (VList [])) /\
  (forall e, r = Failed e ->
     (search_drive_files E search_term max_results w).1 = Raise e).
Proof.
  intros Hg. cbv zeta.
  unfold search_drive_files, search_params, search_query, LIST_FIELDS.
  rewrite (run_single_request _ _ _ _ _ _ _ _ Hg).
  destruct (execute E (trace w1) (service_creds s) _) as [resp|e] eqn:Hr.
  - split.
    { unfold dict_get. destruct (resp !! "files") as [[]|]; cbn; storage_since Hg. }
    unfold dict_get. split; [|split].
    + intros resp' l [= <-] ->. cbn. split; [done|]. by rewrite last_snoc.
    + by intros resp' [= <-] ->.
    + by intros.
  - cbn. split; [storage_since Hg|]. repeat split; try done. by intros ? [= <-].
Qed.

(** [search_drive_files("report", 5)] *)
Lemma search_drive_files_request_witness :
  (search_drive_files (Scenario.ext true) "report" 5
     (Scenario.world (Some "good") true)).1 = Ok (VList [VDict Scenario.report_file]) /\
  exists new,
    trace (search_drive_files (Scenario.ext true) "report" 5
             (Scenario.world (Some "good") true)).2 = new /\
    List.filter is_storage new
    = [ EvExecute Scenario.good_token
          (Request MList
             {[ "q" := VStr "name contains 'report'"; "pageSize" := VInt 5;
                "fields" := VStr LIST_FIELDS ]})
          (Got {[ "files" := VList [VDict Scenario.report_file] ]}) ].
Proof.
  destruct (search_drive_files_request (Scenario.ext true)
              (Scenario.world (Some "good") true) "report" 5
              (build "drive" "v3" Scenario.good_token)
              (get_drive (Scenario.ext true) (Scenario.world (Some "good") true)).2)
    as ((new & Ht & Hone) & Hres & _); [vm_compute; reflexivity|].
  split.
  - apply (Hres {[ "files" := VList [VDict Scenario.report_file] ]}); reflexivity.
  - exists new. split; [exact Ht | exact Hone].
Defined.

(** C5, as stated, fails on the code.  Not every call of [move_file]
    sends an update: when the get request fails, none is sent.  And the
    result is whatever the update request answers: against a service that
    answers an update with an empty object, one update is sent and the
    result has no [id] (nor any other field). *)
Lemma move_file_update_counterexample :
  (move_file (Lab.ext [] [MGet] []) "f1" "dst" (Scenario.world (Some "good") true)).1
    = Raise Lab.not_found /\
  List.filter (is_call MUpdate)
    (trace (move_file (Lab.ext [] [MGet] []) "f1" "dst"
              (Scenario.world (Some "good") true)).2) = [] /\
  List.filter (is_call MUpdate)
    (trace (move_file Lab.terse "f1" "dst" (Scenario.world (Some "good") true)).2)
    = [ EvExecute Scenario.good_token
          (Request MUpdate
             {[ "fileId" := VStr "f1"; "addParents" := VStr "dst";
                "removeParents" := VStr "src1,src2";
                "fields" := VStr "id, name, parents, webViewLink" ]})
          (Got ∅) ] /\
  (move_file Lab.terse "f1" "dst" (Scenario.world (Some "good") true)).1
    = Ok (VDict ∅) /\
  ~ (exists d,
       (move_file Lab.terse "f1" "dst" (Scenario.world (Some "good") true)).1
         = Ok (VDict d) /\
       is_Some (d !! "id")).
Proof.
  assert (Hres : (move_file Lab.terse "f1" "dst"
                    (Scenario.world (Some "good") true)).1 = Ok (VDict ∅))
    by (vm_compute; reflexivity).
  split; [vm_compute; reflexivity|]. split; [vm_compute; reflexivity|].
  split; [vm_compute; reflexivity|]. split; [exact Hres|].
  intros (d & Hd & [v Hv]). rewrite Hres in Hd. injection Hd as <-.
  by rewrite lookup_empty in Hv.
Qed.

(** C5, amended.  Once the handle is acquired, [move_file] first sends a
    get request for the [parents] of [file_id].  When that request answers
    a resource whose parents are the ids [ps] (none, when the answer has no
    [parents]), the invocation sends exactly one more request, an update of
    [file_id] with [addParents] the target folder, [removeParents] the ids
    [ps] joined by commas, and the selector [id, name, parents, webViewLink];
    the result is the response of that update as it is (it has the selected
    fields only if the service put them there), and a failure of the update
    is raised.  When the get request fails, its failure is raised and no
    update is sent. *)
Theorem move_file_update_request E w file_id new_parent_folder_id s w1 :
  get_drive E w = (Ok s, w1) ->
  let read := Request MGet {[ "fileId" := VStr file_id; "fields" := VStr "parents" ]} in
  (forall file ps,
     execute E (trace w1) (service_creds s) read = Got file ->
     dict_get file "parents" (VList []) = VList (VStr <$> ps) ->
     let upd := Request MUpdate
                  {[ "fileId" := VStr file_id;
                     "addParents" := VStr new_parent_folder_id;
                     "removeParents" := VStr (String.concat "," ps);
                     "fields" := VStr "id, name, parents, webViewLink" ]} in
     let r := execute E (trace w1 ++ [EvExecute (service_creds s) read (Got file)])
                (service_creds s) upd in
     (exists new,
        trace (move_file E file_id new_parent_folder_id w).2 = trace w ++ new /\
        List.filter is_storage new
          = [ EvExecute (service_creds s) read (Got file);
              EvExecute (service_creds s) upd r ]) /\
     (move_file E file_id new_parent_folder_id w).1
       = match r with Got resp => Ok (VDict resp) | Failed e => Raise e end) /\
  (forall e,
     execute E (trace w1) (service_creds s) read = Failed e ->
     (exists new,
        trace (move_file E file_id new_parent_folder_id w).2 = trace w ++ new /\
        List.filter is_storage new = [EvExecute (service_creds s) read (Failed e)]) /\
     (move_file E file_id new_parent_folder_id w).1 = Raise e).
Proof.
  intros Hg. cbv zeta. unfold move_file, parents_params, move_params, MOVE_FIELDS.
  rewrite (run_first_request _ _ _ _ _ _ _ _ Hg). split.
  - intros file ps -> Hps. rewrite Hps. unfold try_log.
    erewrite bind_ok by apply py_join_strs.
    unfold bind, execute_request, print, ret. cbn.
    destruct (execute E _ (service_creds s) _) as [resp|e]; cbn;
      rewrite <- !app_assoc; cbn; (split; [storage_since Hg | done]).
  - intros e ->. cbn. split; [storage_since Hg | done].
Qed.

(** [move_file("f1", "dst")] for a file in two folders. *)
Lemma move_file_update_request_witness :
  (move_file (Scenario.ext true) "f1" "dst" (Scenario.world (Some "good") true)).1
    = Ok (VDict Scenario.moved_file) /\
  exists new,
    trace (move_file (Scenario.ext true) "f1" "dst"
             (Scenario.world (Some "good") true)).2 = new /\
    List.filter is_storage new =
      [ EvExecute Scenario.good_token
          (Request MGet {[ "fileId" := VStr "f1"; "fields" := VStr "parents" ]})
          (Got {[ "parents" := VList [VStr "src1"; VStr "src2"] ]});
        EvExecute Scenario.good_token
          (Request MUpdate
             {[ "fileId" := VStr "f1"; "addParents" := VStr "dst";
                "removeParents" := VStr "src1,src2";
                "fields" := VStr "id, name, parents, webViewLink" ]})
          (Got Scenario.moved_file) ].
Proof.
  destruct (move_file_update_request (Scenario.ext true)
              (Scenario.world (Some "good") true) "f1" "dst"
              (build "drive" "v3" Scenario.good_token)
              (get_drive (Scenario.ext true) (Scenario.world (Some "good") true)).2)
    as (Hmove & _); [vm_compute; reflexivity|].
  destruct (Hmove {[ "parents" := VList [VStr "src1"; VStr "src2"] ]} ["src1"; "src2"])
    as ((new & Ht & Htwo) & Hres); [reflexivity..|].
  split; [exact Hres|]. exists new. split; [exact Ht | exact Htwo].
Defined.

(** ** The search filter *)

Lemma append_nil (b : string) : "" +:+ b = b.
Proof. reflexivity. Qed.

Lemma append_cons x (a b : string) : String x a +:+ b = String x (a +:+ b).
Proof. reflexivity. Qed.

Lemma string_app_assoc (a b c : string) : (a +:+ b) +:+ c = a +:+ (b +:+ c).
Proof.
  induction a as [|x a IH]; [done|]. by rewrite !append_cons, IH.
Qed.

Lemma find_quote_app a b :
  find_quote (a +:+ b) =
    match find_quote a with
    | Some i => Some i
    | None => option_map (Nat.add (String.length a)) (find_quote b)
    end.
Proof.
  induction a as [|x a IH]; [rewrite append_nil | rewrite append_cons]; cbn.
  - by destruct (find_quote b).
  - destruct (Ascii.eqb x "'"); [done|]. rewrite IH.
    destruct (find_quote a); [done|]. by destruct (find_quote b).
Qed.

Lemma find_quote_split s i :
  find_quote s = Some i ->
  i < String.length s /\
  exists a b, s = a +:+ "'" +:+ b /\ String.length a = i /\ find_quote a = None.
Proof.
  revert i. induction s as [|x s IH]; intros i; cbn; [done|].
  destruct (Ascii.eqb x "'") eqn:Hx.
  - intros [= <-]. apply Ascii.eqb_eq in Hx as ->. split; [lia|].
    by exists "", s.
  - destruct (find_quote s) as [j|]; [|done]. intros [= <-].
    destruct (IH j eq_refl) as (Hlt & a & b & -> & Hlen & Hnone).
    split; [lia|]. exists (String x a), b. cbn. rewrite Hx, Hnone, Hlen. done.
Qed.

(** C8. The filter sent by [search_drive_files] is the search term put
    between ["name contains '"] and ["'"], character for character.  After
    the opening quote the next quote character is the closing one exactly
    when the term has no quote; when the term has one, at position [i],
    the string literal is closed there, inside the term, and the filter is
    the filter for the part of the term before that quote followed by the
    rest of the term, unchanged. *)
Theorem search_filter_is_raw_interpolation search_term :
  search_query search_term = "name contains '" +:+ search_term +:+ "'" /\
  (forall E w max_results s w1, get_drive E w = (Ok s, w1) ->
     exists r,
       trace (search_drive_files E search_term max_results w).2
         = trace w1 ++ [EvExecute (service_creds s)
                          (Request MList (search_params search_term max_results)) r] /\
       search_params search_term max_results !! "q"
         = Some (VStr (search_query search_term))) /\
  string_drop 15 (search_query search_term) = search_term +:+ "'" /\
  (find_quote search_term = None ->
     find_quote (search_term +:+ "'") = Some (String.length search_term)) /\
  (forall i, find_quote search_term = Some i ->
     find_quote (search_term +:+ "'") = Some i /\
     i < String.length search_term /\
     exists a b,
       search_term = a +:+ "'" +:+ b /\ String.length a = i /\
       find_quote a = None /\
       search_query search_term = search_query a +:+ b +:+ "'").
Proof.
  split; [done|]. split; [|split; [done|split]].
  - intros E w n s w1 Hg.
    destruct (search_drive_files_after_get_drive E w search_term n s w1 Hg)
      as (Ht & _).
    eexists. split; [exact Ht | done].
  - intros Hnone. rewrite find_quote_app, Hnone. cbn. f_equal. lia.
  - intros i Hi. rewrite find_quote_app, Hi. split; [done|].
    destruct (find_quote_split _ _ Hi) as (Hlt & a & b & Hs & Hlen & Hnone).
    split; [done|]. exists a, b. repeat (split; [done|]).
    rewrite Hs. unfold search_query. by rewrite !string_app_assoc.
Qed.

Lemma search_filter_is_raw_interpolation_witness :
  find_quote "x' or name contains 'y" = Some 1 /\
  search_query "x' or name contains 'y" = "name contains 'x' or name contains 'y'" /\
  find_quote (string_drop 15 (search_query "x' or name contains 'y")) = Some 1.
Proof.
  destruct (search_filter_is_raw_interpolation "x' or name contains 'y")
    as (Hq & _ & Hdrop & _ & Hbreak).
  destruct (Hbreak 1 eq_refl) as (Hclose & _).
  split; [reflexivity|]. split; [exact Hq|].
  rewrite Hdrop. exact Hclose.
Defined.

(** ** Empty strings *)

(** The request each of the three tools makes once the handle is acquired. *)
Lemma list_drive_files_after_get_drive E w max_results query s w1 :
  get_drive E w = (Ok s, w1) ->
  exists r,
    trace (list_drive_files E max_results query w).2
      = trace w1 ++ [EvExecute (service_creds s)
                       (Request MList (list_params max_results query)) r].
Proof.
  intros Hg. unfold list_drive_files, try_log. erewrite bind_ok by exact Hg.
  destruct (execute E (trace w1) (service_creds s)
              (Request MList (list_params max_results query))) as [resp|e] eqn:Hr.
  - erewrite bind_ok by (unfold execute_request; rewrite Hr; reflexivity).
    destruct (dict_get resp "files" (VList [])); cbn; by eexists.
  - erewrite bind_raise by (unfold execute_request; rewrite Hr; reflexivity).
    cbn. by eexists.
Qed.

Lemma create_folder_after_get_drive E w folder_name parent_folder_id s w1 :
  get_drive E w = (Ok s, w1) ->
  exists r,
    trace (create_folder E folder_name parent_folder_id w).2
      = trace w1 ++
        [EvExecute (service_creds s)
           (Request MCreate
              {[ "body" := VDict (folder_metadata folder_name parent_folder_id);
                 "fields" := VStr "id, name, webViewLink" ]}) r].
Proof.
  intros Hg. unfold create_folder, try_log. erewrite bind_ok by exact Hg.
  unfold bind, execute_request, print, ret. cbn.
  destruct (execute E (trace w1) (service_creds s) _); cbn; by eexists.
Qed.

Lemma upload_file_after_get_drive E w file_path file_name parent_folder_id s w1 x :
  get_drive E w = (Ok s, w1) ->
  fs w1 !! file_path = Some x ->
  open_rb E (trace w1 ++ [EvExists file_path true]) file_path = None ->
  exists r,
    trace (upload_file E file_path file_name parent_folder_id w).2
      = trace w1 ++
        [EvExists file_path true; EvOpenRead file_path None;
         EvExecute (service_creds s)
           (Request MCreate
              {[ "body" := VDict (upload_metadata file_path file_name parent_folder_id);
                 "media_body" := VMedia file_path true;
                 "fields" := VStr "id, name, webViewLink" ]}) r].
Proof.
  intros Hg Hx Ho. unfold upload_file, try_log. erewrite bind_ok by exact Hg.
  erewrite bind_ok by (eapply path_exists_found; exact Hx).
  unfold bind, media_file_upload, execute_request, print, ret. cbn. rewrite Ho. cbn.
  destruct (execute E _ (service_creds s) _); cbn; rewrite <- !app_assoc; by eexists.
Qed.

(** C9. An empty string given for an optional string argument does what
    leaving the argument out does: [list_drive_files] with [query=""] runs
    as without [query] and its list request has no [q]; [create_folder] and
    [upload_file] with [parent_folder_id=""] run as without it and the
    metadata they send has no [parents]; [upload_file] with [file_name=""]
    runs as without it and the name it sends, once [file_path] is found
    and opened for reading, is the base name of [file_path]. *)
Theorem empty_string_is_omitted_argument :
  (forall E fuel max_results w,
     run_tool E fuel (ListDriveFiles max_results (Some "")) w
       = run_tool E fuel (ListDriveFiles max_results None) w) /\
  (forall E w max_results s w1, get_drive E w = (Ok s, w1) ->
     exists kw r,
       trace (list_drive_files E max_results "" w).2
         = trace w1 ++ [EvExecute (service_creds s) (Request MList kw) r] /\
       kw !! "q" = None) /\
  (forall E fuel folder_name w,
     run_tool E fuel (CreateFolder folder_name (Some "")) w
       = run_tool E fuel (CreateFolder folder_name None) w) /\
  (forall E w folder_name s w1, get_drive E w = (Ok s, w1) ->
     exists body r,
       trace (create_folder E folder_name (Some "") w).2
         = trace w1 ++
           [EvExecute (service_creds s)
              (Request MCreate
                 {[ "body" := VDict body; "fields" := VStr "id, name, webViewLink" ]})
              r] /\
       body !! "parents" = None) /\
  (forall E fuel file_path file_name w,
     run_tool E fuel (UploadFile file_path file_name (Some "")) w
       = run_tool E fuel (UploadFile file_path file_name None) w) /\
  (forall E fuel file_path parent_folder_id w,
     run_tool E fuel (UploadFile file_path (Some "") parent_folder_id) w
       = run_tool E fuel (UploadFile file_path None parent_folder_id) w) /\
  (forall E w file_path s w1 x, get_drive E w = (Ok s, w1) ->
     fs w1 !! file_path = Some x ->
     open_rb E (trace w1 ++ [EvExists file_path true]) file_path = None ->
     exists body r,
       trace (upload_file E file_path (Some "") (Some "") w).2
         = trace w1 ++
           [EvExists file_path true; EvOpenRead file_path None;
            EvExecute (service_creds s)
              (Request MCreate
                 {[ "body" := VDict body; "media_body" := VMedia file_path true;
                    "fields" := VStr "id, name, webViewLink" ]})
              r] /\
       body !! "parents" = None /\
       body !! "name" = Some (VStr (basename file_path))).
Proof.
  repeat split; try reflexivity.
  - intros E w n s w1 Hg.
    destruct (list_drive_files_after_get_drive E w n "" s w1 Hg) as (r & Ht).
    by exists (list_params n ""), r.
  - intros E w name s w1 Hg.
    destruct (create_folder_after_get_drive E w name (Some "") s w1 Hg) as (r & Ht).
    by exists (folder_metadata name (Some "")), r.
  - intros E w path s w1 x Hg Hx Ho.
    destruct (upload_file_after_get_drive E w path (Some "") (Some "") s w1 x Hg Hx Ho)
      as (r & Ht).
    by exists (upload_metadata path (Some "") (Some "")), r.
Qed.

(** An upload of a readable file with both optional strings empty. *)
Lemma empty_string_is_omitted_argument_witness :
  run_tool (Scenario.ext true) 0 (UploadFile "/srv/app/credentials.json" (Some "") (Some ""))
    (Scenario.world (Some "good") true)
  = run_tool (Scenario.ext true) 0 (UploadFile "/srv/app/credentials.json" None None)
      (Scenario.world (Some "good") true) /\
  upload_metadata "/srv/app/credentials.json" (Some "") (Some "")
    = {[ "name" := VStr "credentials.json" ]} /\
  exists body r,
    trace (upload_file (Scenario.ext true) "/srv/app/credentials.json" (Some "") (Some "")
             (Scenario.world (Some "good") true)).2
      = trace (get_drive (Scenario.ext true) (Scenario.world (Some "good") true)).2 ++
        [ EvExists "/srv/app/credentials.json" true;
          EvOpenRead "/srv/app/credentials.json" None;
          EvExecute Scenario.good_token
            (Request MCreate
               {[ "body" := VDict body;
                  "media_body" := VMedia "/srv/app/credentials.json" true;
                  "fields" := VStr "id, name, webViewLink" ]})
            r ] /\
    body !! "parents" = None /\
    body !! "name" = Some (VStr "credentials.json").
Proof.
  destruct empty_string_is_omitted_argument as (_ & _ & _ & _ & Hp & Hn & Hsent).
  split; [|split; [reflexivity|]].
  - rewrite (Hp (Scenario.ext true) 0). apply Hn.
  - apply (Hsent (Scenario.ext true) (Scenario.world (Some "good") true)
             "/srv/app/credentials.json" (build "drive" "v3" Scenario.good_token)
             (get_drive (Scenario.ext true) (Scenario.world (Some "good") true)).2 "{}");
      vm_compute; reflexivity.
Defined.

(** ** download_file *)

Lemma append_nil_r (a : string) : a +:+ "" = a.
Proof. induction a as [|x a IH]; [done|]. by rewrite append_cons, IH. Qed.

Lemma received_app l1 l2 : received (l1 ++ l2) = received l1 +:+ received l2.
Proof.
  induction l1 as [|[ch|e] l1 IH]; cbn; [done| |done].
  by rewrite IH, string_app_assoc.
Qed.

Lemma count_chunks_snoc tr c fid r :
  count_chunks (tr ++ [EvChunk c fid r]) = S (count_chunks tr).
Proof. unfold count_chunks. rewrite List.filter_app, length_app. cbn. lia. Qed.

(** One turn of the loop. *)
Lemma download_loop_step E fuel s fid dest w :
  download_loop E (S fuel) s fid dest w =
    let r := next_chunk E (trace w) (service_creds s) fid in
    let w1 := record (EvChunk (service_creds s) fid r) w in
    match r with
    | Got ch =>
        let w2 :=
          log_line ("Download progress: " +:+ pretty (chunk_pct ch) +:+ "%")
            (write_file dest (default "" (fs w !! dest) +:+ chunk_data ch) w1) in
        if chunk_done ch then (Ok tt, w2)
        else download_loop E fuel s fid dest w2
    | Failed e => (Raise e, w1)
    end.
Proof.
  cbn [download_loop]. unfold bind at 1, fetch_chunk. cbv zeta.
  destruct (next_chunk E (trace w) (service_creds s) fid) as [ch|e]; [|done].
  cbn. by destruct (chunk_done ch).
Qed.

(** The loop appends the chunks that arrive to the file and stops at the
    last chunk or at the first failure. *)
Lemma download_loop_run E s fid dest fuel :
  forall w content,
    fs w !! dest = Some content ->
    exists answers,
      trace (download_loop E fuel s fid dest w).2
        = trace w ++ (EvChunk (service_creds s) fid <$> answers) /\
      fs (download_loop E fuel s fid dest w).2 !! dest
        = Some (content +:+ received answers) /\
      match (download_loop E fuel s fid dest w).1 with
      | Ok _ => exists pre ch, answers = pre ++ [Got ch] /\
                               Forall more_to_come pre /\ chunk_done ch = true
      | Raise e => exists pre, answers = pre ++ [Failed e] /\ Forall more_to_come pre
      | Diverge => Forall more_to_come answers /\ length answers = fuel
      end.
Proof.
  induction fuel as [|fuel IH]; intros w content Hc.
  - exists []. cbn. rewrite app_nil_r, append_nil_r. by repeat split.
  - rewrite download_loop_step. cbv zeta.
    destruct (next_chunk E (trace w) (service_creds s) fid) as [ch|e] eqn:Hn.
    + rewrite Hc. change (default "" (Some content)) with content.
      destruct (chunk_done ch) eqn:Hd.
      * exists [Got ch]. cbn. rewrite lookup_insert_eq, append_nil_r.
        split; [done|]. split; [done|]. by exists [], ch.
      * edestruct (IH (log_line ("Download progress: " +:+ pretty (chunk_pct ch) +:+ "%")
                         (write_file dest (content +:+ chunk_data ch)
                            (record (EvChunk (service_creds s) fid (Got ch)) w))))
          as (answers & Ht & Hfs & Hcase).
        { cbn. apply lookup_insert_eq. }
        exists (Got ch :: answers). rewrite Ht, Hfs. cbn.
        rewrite <- app_assoc, string_app_assoc. split; [done|]. split; [done|].
        assert (Hmore : more_to_come (Got ch)) by (by exists ch).
        destruct (download_loop E fuel s fid dest _).1 as [[]|e|].
        -- destruct Hcase as (pre & ch' & -> & Hpre & Hd').
           exists (Got ch :: pre), ch'.
           split; [done|]. split; [by constructor | done].
        -- destruct Hcase as (pre & -> & Hpre).
           exists (Got ch :: pre). split; [done | by constructor].
        -- destruct Hcase as [Hall <-]. split; [by constructor | done].
    + exists [Failed e]. cbn. rewrite Hc, append_nil_r.
      split; [done|]. split; [done|]. by exists [].
Qed.


(** With a download that ends within [n] chunks, more than [n] turns are
    never needed. *)
Lemma download_loop_ends E s fid dest n fuel :
  ends_within E (service_creds s) fid n ->
  forall w, 0 < fuel -> n < count_chunks (trace w) + fuel ->
            (download_loop E fuel s fid dest w).1 <> Diverge.
Proof.
  intros Hend. induction fuel as [|fuel IH]; intros w Hpos Hn; [lia|].
  rewrite download_loop_step. cbv zeta.
  destruct (next_chunk E (trace w) (service_creds s) fid) as [ch|e] eqn:Hc; [|done].
  destruct (chunk_done ch) eqn:Hd; [done|].
  assert (count_chunks (trace w) < n).
  { destruct (decide (n <= count_chunks (trace w))) as [Hle|]; [|lia].
    apply Hend in Hle. rewrite Hc in Hle. cbn in Hle. congruence. }
  apply IH; unfold log_line, write_file, record; cbn [trace];
    rewrite ?count_chunks_snoc; lia.
Qed.

(** C10. Once the handle is acquired and the destination can be opened,
    [download_file] opens (creates or truncates) the destination before it
    requests the first chunk, and from then on the file holds exactly the
    bytes of the chunks that arrived.  If a chunk request fails, the
    invocation raises that failure, logged, and the file stays behind with
    the bytes of the chunks before it; only when a chunk answers [done],
    all chunks before it having arrived, is the result
    [{success: True, path: destination_path}].  With a download that ends
    within [n] chunks and a loop budget above [n], one of the two
    happens. *)
Theorem download_file_is_not_atomic E fuel file_id destination_path w s w1 :
  get_drive E w = (Ok s, w1) ->
  open_wb E (trace w1) destination_path = None ->
  exists answers,
    trace (download_file E fuel file_id destination_path w).2
      = trace w1 ++ EvOpenWrite destination_path None
                 :: (EvChunk (service_creds s) file_id <$> answers) /\
    fs (download_file E fuel file_id destination_path w).2 !! destination_path
      = Some (received answers) /\
    match (download_file E fuel file_id destination_path w).1 with
    | Ok v =>
        v = VDict {[ "success" := VBool true; "path" := VStr destination_path ]} /\
        exists pre ch, answers = pre ++ [Got ch] /\
                       Forall more_to_come pre /\ chunk_done ch = true
    | Raise e =>
        exists pre, answers = pre ++ [Failed e] /\ Forall more_to_come pre /\
          fs (download_file E fuel file_id destination_path w).2 !! destination_path
            = Some (received pre) /\
          last (stderr (download_file E fuel file_id destination_path w).2)
            = Some ("ERROR in download_file: " +:+ exn_msg e)
    | Diverge => Forall more_to_come answers /\ length answers = fuel
    end /\
    (forall n, ends_within E (service_creds s) file_id n -> n < fuel ->
               (download_file E fuel file_id destination_path w).1 <> Diverge).
Proof.
  intros Hg Ho.
  set (w2 := write_file destination_path ""
               (record (EvOpenWrite destination_path None) w1)).
  assert (Hopen : open_write E destination_path w1 = (Ok tt, w2)).
  { unfold open_write. by rewrite Ho. }
  destruct (download_loop_run E s file_id destination_path fuel w2 "")
    as (answers & Ht & Hfs & Hcase).
  { cbn. apply lookup_insert_eq. }
  rewrite append_nil in Hfs.
  assert (Hrun : download_file E fuel file_id destination_path w =
                 match download_loop E fuel s file_id destination_path w2 with
                 | (Ok _, w3) =>
                     (Ok (VDict {[ "success" := VBool true;
                                   "path" := VStr destination_path ]}),
                      log_line ("Downloaded file to: " +:+ destination_path) w3)
                 | (Raise e, w3) =>
                     (Raise e, log_line ("ERROR in download_file: " +:+ exn_msg e) w3)
                 | (Diverge, w3) => (Diverge, w3)
                 end).
  { unfold download_file, try_log.
    erewrite bind_ok by exact Hg. erewrite bind_ok by exact Hopen.
    unfold bind at 1.
    by destruct (download_loop E fuel s file_id destination_path w2) as [[[]|e|] w3]. }
  exists answers. rewrite Hrun.
  destruct (download_loop E fuel s file_id destination_path w2) as [[[]|e|] w3] eqn:Hl;
    cbn in *; rewrite Ht, <- app_assoc; (split; [done|]); (split; [done|]).
  - split; [by split|]. intros; done.
  - split; [|intros; done].
    destruct Hcase as (pre & -> & Hpre). exists pre.
    rewrite received_app, append_nil_r in Hfs. by rewrite last_snoc.
  - split; [done|]. intros n Hend Hn.
    pose proof (download_loop_ends E s file_id destination_path n fuel Hend w2) as Hne.
    rewrite Hl in Hne. intros _. apply Hne; [lia | lia | done].
Qed.

(** The second chunk fails: the first one stays in the file. *)
Lemma download_file_is_not_atomic_witness :
  fs (Scenario.world (Some "good") true) !! "/tmp/out.bin" = None /\
  (download_file (Scenario.ext true) 5 "f1" "/tmp/out.bin"
     (Scenario.world (Some "good") true)).1 = Raise Scenario.http_error /\
  fs (download_file (Scenario.ext true) 5 "f1" "/tmp/out.bin"
        (Scenario.world (Some "good") true)).2 !! "/tmp/out.bin" = Some "abc" /\
  (download_file (Scenario.ext true) 5 "f1" "/tmp/out.bin"
     (Scenario.world (Some "good") true)).1 <> Diverge.
Proof.
  destruct (download_file_is_not_atomic (Scenario.ext true) 5 "f1" "/tmp/out.bin"
              (Scenario.world (Some "good") true)
              (build "drive" "v3" Scenario.good_token)
              (get_drive (Scenario.ext true) (Scenario.world (Some "good") true)).2)
    as (answers & _ & _ & _ & Hend).
  - vm_compute; reflexivity.
  - reflexivity.
  - split; [vm_compute; reflexivity|]. split; [vm_compute; reflexivity|].
    split; [vm_compute; reflexivity|].
    apply (Hend 1); [|lia].
    intros tr Htr. cbn. destruct (decide (count_chunks tr = 0)); [lia | reflexivity].
Defined.

(** ** Failures *)

(** A tool whose [get_drive] raises stops there, under its own handler. *)
Lemma run_tool_no_handle E fuel t w e w1 :
  get_drive E w = (Raise e, w1) ->
  run_tool E fuel t w
    = (Raise e, log_line ("ERROR in " +:+ tool_name t +:+ ": " +:+ exn_msg e) w1).
Proof.
  intros Hg. destruct t; cbn [run_tool tool_name];
    unfold list_drive_files, search_drive_files, create_folder, upload_file,
      delete_file, download_file, rename_file, move_file, get_file_info;
    apply try_log_raise; by apply bind_raise.
Qed.

(** C7. No tool catches and drops a failure, whatever its source.
    - Whatever a tool invocation raises is first written to [stderr] as
      ["ERROR in <tool>: <message>"], with the exception's own message.
    - A failure of [get_drive] is written as ["ERROR in get_drive: ..."] by
      [get_drive], and the tool raises that same exception without making
      another call.
    - Whenever a call made during the invocation (to the file system, the
      identity provider or the storage service) fails, that call is the
      last one the invocation makes (it is not tried again and nothing
      follows it) and its exception is the one the caller receives.
    - The failures the code raises itself reach the caller too: the
      missing client-secret file; for [upload_file], the missing
      [file_path]; for [list_drive_files] and [search_drive_files], the
      [TypeError] of [len] on a [files] value that has no length; for
      [move_file], the [TypeError] of [join] on parents that cannot be
      iterated or that hold something other than strings. *)
Theorem tool_failure_is_logged_and_reraised E fuel t w :
  (forall e, (run_tool E fuel t w).1 = Raise e ->
     last (stderr (run_tool E fuel t w).2)
       = Some ("ERROR in " +:+ tool_name t +:+ ": " +:+ exn_msg e)) /\
  (forall e, (get_drive E w).1 = Raise e ->
     last (stderr (get_drive E w).2) = Some ("ERROR in get_drive: " +:+ exn_msg e) /\
     (run_tool E fuel t w).1 = Raise e /\
     trace (run_tool E fuel t w).2 = trace (get_drive E w).2) /\
  (exists new,
     trace (run_tool E fuel t w).2 = trace w ++ new /\
     forall pre ev post e,
       new = pre ++ ev :: post -> failure_of ev = Some e ->
       post = [] /\ (run_tool E fuel t w).1 = Raise e) /\
  (fs w !! CREDENTIALS_FILE E = None ->
     (run_tool E fuel t w).1
       = Raise (FileNotFoundError
                  ("credentials.json not found at " +:+ CREDENTIALS_FILE E))) /\
  (forall s w1, get_drive E w = (Ok s, w1) ->
     match t with
     | UploadFile file_path _ _ =>
         fs w1 !! file_path = None ->
         (run_tool E fuel t w).1
           = Raise (FileNotFoundError ("File not found: " +:+ file_path))
     | ListDriveFiles max_results query =>
         forall resp,
           execute E (trace w1) (service_creds s)
             (Request MList (list_params (default 10%Z max_results) (default "" query)))
             = Got resp ->
           has_len (dict_get resp "files" (VList [])) = false ->
           (run_tool E fuel t w).1
             = Raise (TypeError
                        ("object of type '"
                         +:+ type_name (dict_get resp "files" (VList []))
                         +:+ "' has no len()"))
     | SearchDriveFiles search_term max_results =>
         forall resp,
           execute E (trace w1) (service_creds s)
             (Request MList (search_params search_term (default 10%Z max_results)))
             = Got resp ->
           has_len (dict_get resp "files" (VList [])) = false ->
           (run_tool E fuel t w).1
             = Raise (TypeError
                        ("object of type '"
                         +:+ type_name (dict_get resp "files" (VList []))
                         +:+ "' has no len()"))
     | MoveFile file_id _ =>
         forall file,
           execute E (trace w1) (service_creds s) (Request MGet (parents_params file_id))
             = Got file ->
           (iterable (dict_get file "parents" (VList [])) = false ->
              (run_tool E fuel t w).1 = Raise (TypeError "can only join an iterable")) /\
           (forall l e,
              dict_get file "parents" (VList []) = VList l -> str_items 0 l = inl e ->
              (run_tool E fuel t w).1 = Raise e)
     | _ => True
     end).
Proof.
  split; [|split; [|split; [|split]]].
  - destruct (run_tool_logged E fuel t) as [body ->]. intros e.
    unfold try_log. destruct (body w) as [[a|e'|] w1]; cbn; try done.
    intros [= ->]. by rewrite last_snoc.
  - intros e He. destruct (get_drive E w) as [[s|e'|] w1] eqn:Hg; cbn in He; try done.
    injection He as ->. rewrite (run_tool_no_handle _ _ _ _ _ _ Hg). cbn.
    split; [|done]. revert Hg. unfold get_drive at 1, try_log.
    match goal with |- context [match ?b w with _ => _ end] =>
      destruct (b w) as [[a|e'|] w0] end; intros [= <- <-].
    cbn. by rewrite last_snoc.
  - destruct (faithful_run_tool E fuel t w) as (new & Ht & Hrun).
    exists new. split; [done|]. intros pre ev post e Hnew Hev.
    destruct (run_tool E fuel t w).1 as [a|e'|]; cbn in Hrun.
    + destruct (no_failure_among_succeeded _ _ _ _ _ Hrun Hnew Hev).
    + destruct Hrun as [[Hall _] | (pre' & ev' & Hnew' & Hpre' & Hev')].
      * destruct (no_failure_among_succeeded _ _ _ _ _ Hall Hnew Hev).
      * destruct (failed_call_is_last _ _ _ _ _ _ _ Hnew Hev Hnew' Hpre') as [-> ->].
        split; [done|]. congruence.
    + destruct (no_failure_among_succeeded _ _ _ _ _ Hrun Hnew Hev).
  - intros Hs. by rewrite (run_tool_no_handle _ _ _ _ _ _ (get_drive_no_secrets E w Hs)).
  - intros s w1 Hg. destruct t; try exact I; cbn [run_tool].
    + intros resp Hr Hlen. unfold list_drive_files.
      rewrite (run_single_request _ _ _ _ _ _ _ _ Hg), Hr.
      by destruct (dict_get resp "files" (VList [])).
    + intros resp Hr Hlen. unfold search_drive_files.
      rewrite (run_single_request _ _ _ _ _ _ _ _ Hg), Hr.
      by destruct (dict_get resp "files" (VList [])).
    + intros Hmiss. unfold upload_file.
      erewrite try_log_raise; [done|].
      erewrite bind_ok by exact Hg.
      erewrite bind_ok by (by apply path_exists_missing). reflexivity.
    + intros file Hr. unfold move_file.
      rewrite (run_first_request _ _ _ _ _ _ _ _ Hg), Hr. split.
      * intros Hit. by destruct (dict_get file "parents" (VList [])).
      * intros l e -> Hitems. unfold try_log, bind at 1. cbn. by rewrite Hitems.
Qed.

(** A download whose handle cannot be acquired, because the refresh
    fails: the refresh failure is what the tool raises and logs.  A search
    answered with [{"files": None}]: the [TypeError] of [len] is what the
    tool raises and logs. *)
Lemma tool_failure_is_logged_and_reraised_witness :
  (run_tool (Scenario.ext false) 3 (DownloadFile "f1" "/tmp/out.bin")
     (Scenario.world (Some "stale") true)).1 = Raise Scenario.refresh_error /\
  last (stderr (run_tool (Scenario.ext false) 3 (DownloadFile "f1" "/tmp/out.bin")
                  (Scenario.world (Some "stale") true)).2)
    = Some "ERROR in download_file: invalid_grant: Token has been expired or revoked." /\
  (run_tool Lab.hollow 0 (SearchDriveFiles "report" None)
     (Scenario.world (Some "good") true)).1
    = Raise (TypeError "object of type 'NoneType' has no len()") /\
  last (stderr (run_tool Lab.hollow 0 (SearchDriveFiles "report" None)
                  (Scenario.world (Some "good") true)).2)
    = Some "ERROR in search_drive_files: object of type 'NoneType' has no len()".
Proof.
  destruct (tool_failure_is_logged_and_reraised (Scenario.ext false) 3
              (DownloadFile "f1" "/tmp/out.bin") (Scenario.world (Some "stale") true))
    as (Hlog & Hacq & _).
  destruct (Hacq Scenario.refresh_error) as (_ & Hres & _); [vm_compute; reflexivity|].
  split; [exact Hres|]. split; [exact (Hlog _ Hres)|].
  destruct (tool_failure_is_logged_and_reraised Lab.hollow 0
              (SearchDriveFiles "report" None) (Scenario.world (Some "good") true))
    as (Hlog' & _ & _ & _ & Hown).
  pose proof (Hown (build "drive" "v3" Scenario.good_token)
                (get_drive Lab.hollow (Scenario.world (Some "good") true)).2
                ltac:(vm_compute; reflexivity)
                {[ "files" := VNone ]} eq_refl eq_refl) as Hres'.
  split; [exact Hres'|]. exact (Hlog' _ Hres').
Defined.

(** * Further properties of the code *)

(** ** The token store *)

Lemma secrets_and_token_differ E : CREDENTIALS_FILE E <> TOKEN_FILE E.
Proof.
  unfold CREDENTIALS_FILE, TOKEN_FILE, path_join.
  change (String.prefix "/" "credentials.json") with false.
  change (String.prefix "/" "token.pickle") with false.
  destruct (String.eqb (SCRIPT_DIR E) "" || ends_with_slash (SCRIPT_DIR E));
    intros H; apply (inj (String.append _)) in H; discriminate.
Qed.

Lemma token_written E (f : gmap string string) b :
  <[TOKEN_FILE E := b]> (<[TOKEN_FILE E := ""]> f) = <[TOKEN_FILE E := b]> f.
Proof. apply insert_insert_eq. Qed.

(** X1. First run: with the client-secret file in place and no token
    file, [get_drive] runs interactive authorization once, with the
    client-secret file and the two Drive scopes, writes the credential it
    got to the token file and returns a handle built on it; no refresh is
    attempted. *)
Theorem get_drive_first_run_authorizes_and_persists E w x c :
  fs w !! CREDENTIALS_FILE E = Some x ->
  fs w !! TOKEN_FILE E = None ->
  run_local_server E
    (trace w ++ [ EvExists (CREDENTIALS_FILE E) true; EvExists (TOKEN_FILE E) false ])
    (CREDENTIALS_FILE E) SCOPES = Got c ->
  open_wb E
    (trace w ++ [ EvExists (CREDENTIALS_FILE E) true; EvExists (TOKEN_FILE E) false;
                  EvAuthorize (CREDENTIALS_FILE E) SCOPES (Got c) ])
    (TOKEN_FILE E) = None ->
  exists w',
    get_drive E w = (Ok (build "drive" "v3" c), w') /\
    fs w' = <[TOKEN_FILE E := pickle_dumps E c]> (fs w) /\
    trace w' = trace w ++
      [ EvExists (CREDENTIALS_FILE E) true; EvExists (TOKEN_FILE E) false;
        EvAuthorize (CREDENTIALS_FILE E)
          [ "https://www.googleapis.com/auth/drive";
            "https://www.googleapis.com/auth/drive.file" ] (Got c);
        EvOpenWrite (TOKEN_FILE E) None ].
Proof.
  intros Hs Ht Hflow Hopen. eexists. split.
  { unfold get_drive. repeat (progress munfold). cbn.
    repeat (progress (rewrite <- ?app_assoc, ?Hs, ?Ht, ?Hflow, ?Hopen; cbn)).
    reflexivity. }
  cbn. rewrite lookup_insert_eq. cbn. rewrite token_written, <- !app_assoc.
  by rewrite append_nil.
Qed.

Lemma get_drive_first_run_authorizes_and_persists_witness :
  exists w',
    get_drive (Scenario.ext true) (Scenario.world None true)
      = (Ok (build "drive" "v3" Scenario.fresh_token), w') /\
    fs w' !! "/srv/app/token.pickle" = Some "fresh".
Proof.
  destruct (get_drive_first_run_authorizes_and_persists (Scenario.ext true)
              (Scenario.world None true) "{}" Scenario.fresh_token)
    as (w' & Hrun & Hfs & _); try (vm_compute; reflexivity).
  exists w'. split; [exact Hrun|]. rewrite Hfs. vm_compute; reflexivity.
Defined.

(** X2. A persisted credential that is neither valid nor refreshable
    (not expired, or without a refresh token) is replaced: [get_drive] runs
    interactive authorization, not a refresh, and overwrites the token file
    with the new credential. *)
Theorem get_drive_replaces_unusable_credential E w x b c c' :
  fs w !! CREDENTIALS_FILE E = Some x ->
  fs w !! TOKEN_FILE E = Some b ->
  pickle_loads E b = Got (Some c) ->
  valid c = false ->
  expired c && truthy (refresh_token c) = false ->
  run_local_server E
    (trace w ++ [ EvExists (CREDENTIALS_FILE E) true; EvExists (TOKEN_FILE E) true;
                  EvUnpickle (TOKEN_FILE E) (Got (Some c)) ])
    (CREDENTIALS_FILE E) SCOPES = Got c' ->
  open_wb E
    (trace w ++ [ EvExists (CREDENTIALS_FILE E) true; EvExists (TOKEN_FILE E) true;
                  EvUnpickle (TOKEN_FILE E) (Got (Some c));
                  EvAuthorize (CREDENTIALS_FILE E) SCOPES (Got c') ])
    (TOKEN_FILE E) = None ->
  exists w',
    get_drive E w = (Ok (build "drive" "v3" c'), w') /\
    fs w' = <[TOKEN_FILE E := pickle_dumps E c']> (fs w) /\
    trace w' = trace w ++
      [ EvExists (CREDENTIALS_FILE E) true; EvExists (TOKEN_FILE E) true;
        EvUnpickle (TOKEN_FILE E) (Got (Some c));
        EvAuthorize (CREDENTIALS_FILE E) SCOPES (Got c');
        EvOpenWrite (TOKEN_FILE E) None ].
Proof.
  intros Hs Ht Hl Hv Hnr Hflow Hopen. eexists. split.
  { unfold get_drive. repeat (progress munfold). cbn.
    repeat (progress (rewrite <- ?app_assoc, ?Hs, ?Ht, ?Hl, ?Hv, ?Hnr, ?Hflow,
                        ?Hopen; cbn)).
    reflexivity. }
  cbn. rewrite lookup_insert_eq. cbn. rewrite token_written, <- !app_assoc.
  by rewrite append_nil.
Qed.

Lemma get_drive_replaces_unusable_credential_witness :
  exists w',
    get_drive (Scenario.ext true) (Scenario.world (Some "bare") true)
      = (Ok (build "drive" "v3" Scenario.fresh_token), w') /\
    fs w' !! "/srv/app/token.pickle" = Some "fresh".
Proof.
  destruct (get_drive_replaces_unusable_credential (Scenario.ext true)
              (Scenario.world (Some "bare") true) "{}" "bare"
              Scenario.no_token Scenario.fresh_token)
    as (w' & Hrun & Hfs & _); try (vm_compute; reflexivity).
  exists w'. split; [exact Hrun|]. rewrite Hfs. vm_compute; reflexivity.
Defined.

(** X3. An expired credential with a refresh token is refreshed, not
    re-authorized: on a successful refresh [get_drive] writes the refreshed
    credential to the token file and returns a handle built on it, and no
    interactive authorization takes place. *)
Theorem get_drive_refresh_persists E w x b c c' :
  fs w !! CREDENTIALS_FILE E = Some x ->
  fs w !! TOKEN_FILE E = Some b ->
  pickle_loads E b = Got (Some c) ->
  expired c = true ->
  truthy (refresh_token c) = true ->
  refresh E
    (trace w ++ [ EvExists (CREDENTIALS_FILE E) true; EvExists (TOKEN_FILE E) true;
                  EvUnpickle (TOKEN_FILE E) (Got (Some c)) ]) c = Got c' ->
  open_wb E
    (trace w ++ [ EvExists (CREDENTIALS_FILE E) true; EvExists (TOKEN_FILE E) true;
                  EvUnpickle (TOKEN_FILE E) (Got (Some c)); EvRefresh c (Got c') ])
    (TOKEN_FILE E) = None ->
  exists w',
    get_drive E w = (Ok (build "drive" "v3" c'), w') /\
    fs w' = <[TOKEN_FILE E := pickle_dumps E c']> (fs w) /\
    trace w' = trace w ++
      [ EvExists (CREDENTIALS_FILE E) true; EvExists (TOKEN_FILE E) true;
        EvUnpickle (TOKEN_FILE E) (Got (Some c)); EvRefresh c (Got c');
        EvOpenWrite (TOKEN_FILE E) None ].
Proof.
  intros Hs Ht Hl He Hrt Hr Hopen.
  assert (Hv : valid c = false) by (unfold valid; rewrite He; by destruct (token c)).
  eexists. split.
  { unfold get_drive. repeat (progress munfold). cbn.
    repeat (progress (rewrite <- ?app_assoc, ?Hs, ?Ht, ?Hl, ?Hv, ?He, ?Hrt, ?Hr,
                        ?Hopen; cbn)).
    reflexivity. }
  cbn. rewrite lookup_insert_eq. cbn. rewrite token_written, <- !app_assoc.
  by rewrite append_nil.
Qed.

Lemma get_drive_refresh_persists_witness :
  exists w',
    get_drive (Scenario.ext true) (Scenario.world (Some "stale") true)
      = (Ok (build "drive" "v3" Scenario.fresh_token), w') /\
    fs w' !! "/srv/app/token.pickle" = Some "fresh" /\
    Forall (fun ev => match ev with EvAuthorize _ _ _ => False | _ => True end)
      (trace w').
Proof.
  destruct (get_drive_refresh_persists (Scenario.ext true)
              (Scenario.world (Some "stale") true) "{}" "stale"
              Scenario.stale_token Scenario.fresh_token)
    as (w' & Hrun & Hfs & Ht); try (vm_compute; reflexivity).
  exists w'. split; [exact Hrun|]. split.
  - rewrite Hfs. vm_compute; reflexivity.
  - rewrite Ht. by repeat constructor.
Defined.





(** X5. A token file that does not unpickle stops [get_drive]: the
    unpickling error is logged and raised, the identity provider is not
    called (no fresh authorization is attempted) and the token file is left
    as it is. *)
Theorem get_drive_unreadable_token E w x b e :
  fs w !! CREDENTIALS_FILE E = Some x ->
  fs w !! TOKEN_FILE E = Some b ->
  pickle_loads E b = Failed e ->
  exists w',
    get_drive E w = (Raise e, w') /\
    fs w' = fs w /\
    last (stderr w') = Some ("ERROR in get_drive: " +:+ exn_msg e) /\
    trace w' = trace w ++
      [ EvExists (CREDENTIALS_FILE E) true; EvExists (TOKEN_FILE E) true;
        EvUnpickle (TOKEN_FILE E) (Failed e) ].
Proof.
  intros Hs Ht Hl. eexists. split.
  { unfold get_drive. repeat (progress munfold). cbn.
    repeat (progress (rewrite <- ?app_assoc, ?Hs, ?Ht, ?Hl; cbn)).
    reflexivity. }
  cbn. split; [done|]. split; [by rewrite last_snoc|]. by rewrite <- !app_assoc.
Qed.

Lemma get_drive_unreadable_token_witness :
  exists w',
    get_drive (Scenario.ext true) (Scenario.world (Some "not a pickle") true)
      = (Raise (Exn "UnpicklingError" "invalid load key"), w') /\
    Forall (fun ev => is_remote ev = false) (trace w').
Proof.
  destruct (get_drive_unreadable_token (Scenario.ext true)
              (Scenario.world (Some "not a pickle") true) "{}" "not a pickle"
              (Exn "UnpicklingError" "invalid load key"))
    as (w' & Hrun & _ & _ & Ht); try (vm_compute; reflexivity).
  exists w'. split; [exact Hrun|]. rewrite Ht. by repeat constructor.
Defined.



(** ** Local files *)

Lemma touches_only_pure {A} paths (m : M A) :
  (forall w, fs (m w).2 = fs w) -> touches_only paths m.
Proof. intros H w p _. by rewrite H. Qed.

Lemma touches_only_bind {A B} paths (m : M A) (k : A -> M B) :
  touches_only paths m -> (forall a, touches_only paths (k a)) ->
  touches_only paths (bind m k).
Proof.
  intros Hm Hk w p Hp. specialize (Hm w p Hp). unfold bind.
  destruct (m w) as [[a|e|] w1]; cbn in *; [|done..].
  by rewrite (Hk a w1 p Hp).
Qed.

Lemma touches_only_try_log {A} paths name (m : M A) :
  touches_only paths m -> touches_only paths (try_log name m).
Proof.
  intros Hm w p Hp. specialize (Hm w p Hp). unfold try_log.
  by destruct (m w) as [[a|e|] w1].
Qed.

Lemma touches_only_mono {A} paths paths' (m : M A) :
  paths ⊆ paths' -> touches_only paths m -> touches_only paths' m.
Proof. intros Hsub Hm w p Hp. apply Hm. intros Hin. by apply Hp, Hsub. Qed.

Lemma touches_only_open_write E paths p :
  p ∈ paths -> touches_only paths (open_write E p).
Proof.
  intros Hin w q Hq. unfold open_write.
  destruct (open_wb E (trace w) p); cbn; [done|].
  apply lookup_insert_ne. by intros ->.
Qed.

Lemma touches_only_write_bytes paths p b :
  p ∈ paths -> touches_only paths (write_bytes p b).
Proof. intros Hin w q Hq. cbn. apply lookup_insert_ne. by intros ->. Qed.

Lemma touches_only_py_len paths v : touches_only paths (py_len v).
Proof. apply touches_only_pure. by destruct v. Qed.

Lemma touches_only_py_join paths sep v : touches_only paths (py_join sep v).
Proof.
  apply touches_only_pure. destruct v; cbn; try done.
  by destruct (str_items 0 l).
Qed.

Lemma touches_only_fetch_chunk E paths s fid dest :
  dest ∈ paths -> touches_only paths (fetch_chunk E s fid dest).
Proof.
  intros Hin w q Hq. unfold fetch_chunk.
  destruct (next_chunk E (trace w) (service_creds s) fid); cbn; [|done].
  apply lookup_insert_ne. by intros ->.
Qed.

Lemma touches_only_pickle_load E paths p : touches_only paths (pickle_load E p).
Proof.
  apply touches_only_pure. intros w. unfold pickle_load. by destruct (fs w !! p).
Qed.

Lemma touches_only_media_file_upload E paths p res :
  touches_only paths (media_file_upload E p res).
Proof.
  apply touches_only_pure. intros w. unfold media_file_upload.
  by destruct (open_rb E (trace w) p).
Qed.

Ltac touches_step :=
  first
    [ apply touches_only_py_len | apply touches_only_py_join
    | apply touches_only_pickle_load | apply touches_only_media_file_upload
    | apply touches_only_try_log
    | apply touches_only_bind; [| intros ?]
    | apply touches_only_open_write; by constructor
    | apply touches_only_write_bytes; by constructor
    | apply touches_only_fetch_chunk; by constructor
    | match goal with
      | |- touches_only _ (if ?b then _ else _) => destruct b
      | |- touches_only _ (match ?x with _ => _ end) => destruct x
      end
    | by apply touches_only_pure ].

Lemma touches_only_get_drive E : touches_only [TOKEN_FILE E] (get_drive E).
Proof. unfold get_drive, pickle_dump. cbv zeta. repeat touches_step. Qed.

Lemma touches_only_download_loop E fuel s fid dest :
  touches_only [dest] (download_loop E fuel s fid dest).
Proof.
  induction fuel as [|fuel IH]; cbn [download_loop]; repeat first [apply IH | touches_step].
Qed.

(** Every tool is [get_drive] followed by a body that works with the
    handle, all under one handler. *)
Lemma run_tool_acquires E fuel t :
  exists k : Service -> M value,
    run_tool E fuel t = try_log (tool_name t) (bind (get_drive E) k) /\
    forall s, emits (after_acquisition s) (k s) /\
              touches_only (destination t) (k s).
Proof.
  destruct t; eexists; (split; [reflexivity|]); intros s; split; cbn [destination].
  all: repeat first [ emits_step | touches_step
                    | apply touches_only_download_loop ]; try done.
  induction fuel as [|fuel IH]; cbn [download_loop]; repeat emits_step; done.
Qed.

(** X7. Local files are left alone: an invocation of a tool changes no
    local file other than the token file and, for [download_file], the
    destination; [get_drive] changes no file other than the token file, so
    never the client-secret file. *)
Theorem tools_write_only_token_and_destination E fuel t w :
  (forall p, p <> TOKEN_FILE E -> p ∉ destination t ->
     fs (run_tool E fuel t w).2 !! p = fs w !! p) /\
  (forall p, p <> TOKEN_FILE E -> fs (get_drive E w).2 !! p = fs w !! p) /\
  fs (get_drive E w).2 !! CREDENTIALS_FILE E = fs w !! CREDENTIALS_FILE E.
Proof.
  split; [|split].
  - intros p Hp Hd. destruct (run_tool_acquires E fuel t) as (k & -> & Hk).
    apply (touches_only_try_log (TOKEN_FILE E :: destination t));
      [|by apply not_elem_of_cons].
    apply touches_only_bind.
    + eapply touches_only_mono; [|apply touches_only_get_drive].
      intros q ->%list_elem_of_singleton. by left.
    + intros s. eapply touches_only_mono; [|apply Hk]. intros q Hq. by right.
  - intros p Hp. apply touches_only_get_drive. by intros ?%list_elem_of_singleton.
  - apply touches_only_get_drive. intros ?%list_elem_of_singleton.
    by apply (secrets_and_token_differ E).
Qed.

(** An upload that refreshes the token on the way: the uploaded file and
    the client-secret file are as before. *)
Lemma tools_write_only_token_and_destination_witness :
  fs (run_tool (Scenario.ext true) 0 (UploadFile "/srv/app/credentials.json" None None)
        (Scenario.world (Some "stale") true)).2 !! "/srv/app/credentials.json"
    = Some "{}" /\
  fs (run_tool (Scenario.ext true) 0 (UploadFile "/srv/app/credentials.json" None None)
        (Scenario.world (Some "stale") true)).2 !! "/srv/app/token.pickle"
    = Some "fresh".
Proof.
  destruct (tools_write_only_token_and_destination (Scenario.ext true) 0
              (UploadFile "/srv/app/credentials.json" None None)
              (Scenario.world (Some "stale") true)) as (Hframe & _).
  split; [|vm_compute; reflexivity].
  rewrite (Hframe "/srv/app/credentials.json").
  - vm_compute; reflexivity.
  - vm_compute. discriminate.
  - cbn. apply not_elem_of_nil.
Defined.

(** ** A tool and its handle *)

Lemma get_drive_raise_logged E w e w1 :
  get_drive E w = (Raise e, w1) ->
  exists pre, stderr w1 = pre ++ ["ERROR in get_drive: " +:+ exn_msg e].
Proof.
  unfold get_drive at 1, try_log.
  match goal with |- context [match ?b w with _ => _ end] =>
    destruct (b w) as [[a|e'|] w0] end; intros [= <- <-]. by eexists.
Qed.

(** X8. When the handle cannot be acquired, every tool fails the same
    way: it raises the exception [get_drive] raised, makes no request to
    the storage service and writes nothing, and [stderr] ends with the
    message twice, once under [get_drive] and once under the tool's name. *)
Theorem tool_without_handle E fuel t w e w1 :
  get_drive E w = (Raise e, w1) ->
  run_tool E fuel t w
    = (Raise e, log_line ("ERROR in " +:+ tool_name t +:+ ": " +:+ exn_msg e) w1) /\
  (exists pre,
     stderr (run_tool E fuel t w).2
       = pre ++ [ "ERROR in get_drive: " +:+ exn_msg e;
                  "ERROR in " +:+ tool_name t +:+ ": " +:+ exn_msg e ]) /\
  (exists new, trace (run_tool E fuel t w).2 = trace w ++ new /\
               Forall (fun ev => is_storage ev = false) new).
Proof.
  intros Hg.
  assert (Hrun : run_tool E fuel t w
            = (Raise e, log_line ("ERROR in " +:+ tool_name t +:+ ": " +:+ exn_msg e) w1)).
  { destruct (run_tool_acquires E fuel t) as (k & -> & _).
    apply try_log_raise. by apply bind_raise. }
  split; [exact Hrun|]. rewrite Hrun. cbn. split.
  - destruct (get_drive_raise_logged _ _ _ _ Hg) as (pre & ->).
    exists pre. by rewrite <- app_assoc.
  - destruct (get_drive_emits E w) as (new & Ht & Hnew). rewrite Hg in Ht. eauto.
Qed.

Lemma tool_without_handle_witness :
  (run_tool (Scenario.ext true) 0 (DeleteFile "f1") (Scenario.world (Some "good") false)).1
    = Raise (FileNotFoundError "credentials.json not found at /srv/app/credentials.json") /\
  exists pre,
    stderr (run_tool (Scenario.ext true) 0 (DeleteFile "f1")
              (Scenario.world (Some "good") false)).2
    = pre ++ [ "ERROR in get_drive: credentials.json not found at /srv/app/credentials.json";
               "ERROR in delete_file: credentials.json not found at /srv/app/credentials.json" ].
Proof.
  destruct (tool_without_handle (Scenario.ext true) 0 (DeleteFile "f1")
              (Scenario.world (Some "good") false)
              (FileNotFoundError "credentials.json not found at /srv/app/credentials.json")
              (get_drive (Scenario.ext true) (Scenario.world (Some "good") false)).2)
    as (Hrun & Hlog & _); [vm_compute; reflexivity|].
  split; [by rewrite Hrun | exact Hlog].
Defined.

(** What each tool does with its handle. *)
Lemma run_tool_own_calls E fuel t :
  exists k : Service -> M value,
    run_tool E fuel t = try_log (tool_name t) (bind (get_drive E) k) /\
    forall s, emits (own_call t s) (k s).
Proof.
  destruct t; eexists; (split; [reflexivity|]); intros s.
  all: repeat emits_step; cbn; eauto.
  induction fuel as [|fuel IH]; cbn [download_loop]; repeat emits_step; cbn; eauto.
Qed.

(** X9. Once a tool holds its handle, its own code works with that one
    handle for the rest of the invocation: every request it executes, and
    every chunk it fetches, goes through the handle [get_drive] returned;
    the code does not read the token file again and calls neither the
    refresh nor the authorization flow itself.  Besides requests, only
    [upload_file] looks up a local path and opens it for reading (its
    [file_path]), and only [download_file] opens a file for writing (its
    destination).  What the client library does on its own while it
    executes a request (it may refresh the access token) belongs to that
    request and is not a step of this code. *)
Theorem tool_requests_use_acquired_handle E fuel t w s w1 :
  get_drive E w = (Ok s, w1) ->
  exists new,
    trace (run_tool E fuel t w).2 = trace w1 ++ new /\
    Forall (own_call t s) new.
Proof.
  intros Hg. destruct (run_tool_own_calls E fuel t) as (k & -> & Hk).
  destruct (Hk s w1) as (new & Ht & Hnew).
  exists new. split; [|done]. rewrite <- Ht.
  unfold try_log. rewrite (bind_ok _ _ _ _ _ Hg).
  by destruct (k s w1) as [[a|e|] w2].
Qed.

(** An upload that refreshes the token on the way: after the acquisition
    come the look-up of the path, its opening and the create request. *)
Lemma tool_requests_use_acquired_handle_witness :
  exists new,
    trace (run_tool (Scenario.ext true) 0
             (UploadFile "/srv/app/credentials.json" None None)
             (Scenario.world (Some "stale") true)).2
      = trace (get_drive (Scenario.ext true) (Scenario.world (Some "stale") true)).2
        ++ new /\
    Forall (own_call (UploadFile "/srv/app/credentials.json" None None)
              (build "drive" "v3" Scenario.fresh_token)) new.
Proof.
  apply (tool_requests_use_acquired_handle (Scenario.ext true) 0
           (UploadFile "/srv/app/credentials.json" None None)
           (Scenario.world (Some "stale") true)
           (build "drive" "v3" Scenario.fresh_token)).
  vm_compute; reflexivity.
Defined.

Lemma get_drive_first_call E w :
  exists found rest,
    trace (get_drive E w).2 = trace w ++ EvExists (CREDENTIALS_FILE E) found :: rest.
Proof.
  unfold get_drive.
  set (k := fun have_secrets : bool => if negb have_secrets then _ else _).
  assert (Hk : forall b, emits (fun _ => True) (k b)).
  { intros b. unfold k. cbv zeta.
    repeat first [emits_step | apply emits_pickle_dump; intros ?]; done. }
  destruct (Hk (bool_decide (is_Some (fs w !! CREDENTIALS_FILE E)))
               (record (EvExists (CREDENTIALS_FILE E)
                          (bool_decide (is_Some (fs w !! CREDENTIALS_FILE E))))
                  (log_line "Starting authentication process..." w)))
    as (rest & Ht & _).
  exists (bool_decide (is_Some (fs w !! CREDENTIALS_FILE E))), rest.
  unfold try_log, bind at 1, print at 1. cbn.
  destruct (k _ _) as [[a|e|] w2]; cbn in Ht |- *; by rewrite Ht, <- app_assoc.
Qed.

(** X10. No handle is kept between invocations: whatever the tool and
    its arguments, the first call an invocation makes is the look-up of the
    client-secret file, the first step of [get_drive]. *)
Theorem tool_starts_with_secrets_lookup E fuel t w :
  exists found rest,
    trace (run_tool E fuel t w).2
      = trace w ++ EvExists (CREDENTIALS_FILE E) found :: rest.
Proof.
  destruct (run_tool_acquires E fuel t) as (k & -> & Hk).
  destruct (get_drive_first_call E w) as (found & rest & Hfirst).
  unfold try_log, bind.
  destruct (get_drive E w) as [[s|e|] w1] eqn:Hg; cbn in Hfirst.
  - destruct (Hk s) as [Hem _]. destruct (Hem w1) as (new & Ht & _).
    exists found, (rest ++ new).
    rewrite app_comm_cons, app_assoc, <- Hfirst, <- Ht.
    by destruct (k s w1) as [[a|e|] w2].
  - by exists found, rest.
  - by exists found, rest.
Qed.

(** ** The single-request tools *)

(** X11. [delete_file] sends one delete request, for [file_id], and
    nothing else to the storage service.  What the service answers is not
    looked at: any answer that is not a failure gives the acknowledgment
    [{success: True, message: "File <file_id> deleted successfully"}] and
    the line ["Deleted file with ID: <file_id>"]; a failure is raised. *)
Theorem delete_file_acknowledges E w file_id s w1 :
  get_drive E w = (Ok s, w1) ->
  let req := Request MDelete {[ "fileId" := VStr file_id ]} in
  let r := execute E (trace w1) (service_creds s) req in
  (exists new,
     trace (delete_file E file_id w).2 = trace w ++ new /\
     List.filter is_storage new = [EvExecute (service_creds s) req r]) /\
  (delete_file E file_id w).1
    = match r with
      | Got _ =>
          Ok (VDict {[ "success" := VBool true;
                       "message" := VStr ("File " +:+ file_id +:+ " deleted successfully") ]})
      | Failed e => Raise e
      end /\
  (forall resp, r = Got resp ->
     last (stderr (delete_file E file_id w).2)
       = Some ("Deleted file with ID: " +:+ file_id)).
Proof.
  intros Hg. cbv zeta.
  assert (Hrun : exists w2,
            delete_file E file_id w
              = (match execute E (trace w1) (service_creds s)
                         (Request MDelete {[ "fileId" := VStr file_id ]}) with
                 | Got _ =>
                     Ok (VDict {[ "success" := VBool true;
                                  "message" :=
                                    VStr ("File " +:+ file_id +:+ " deleted successfully") ]})
                 | Failed e => Raise e
                 end, w2) /\
            trace w2 = trace w1 ++
              [EvExecute (service_creds s) (Request MDelete {[ "fileId" := VStr file_id ]})
                 (execute E (trace w1) (service_creds s)
                    (Request MDelete {[ "fileId" := VStr file_id ]}))] /\
            (forall resp,
               execute E (trace w1) (service_creds s)
                 (Request MDelete {[ "fileId" := VStr file_id ]}) = Got resp ->
               stderr w2 = stderr w1 ++ ["Deleted file with ID: " +:+ file_id])).
  { unfold delete_file, try_log. erewrite bind_ok by exact Hg.
    unfold bind, execute_request, print, ret. cbn.
    destruct (execute E (trace w1) (service_creds s) _) as [resp|e]; cbn;
      eexists; (split; [reflexivity|]); (split; [done|]); by intros. }
  destruct Hrun as (w2 & Hrun & Ht & Hlog). rewrite Hrun. cbn.
  split; [|split; [done|]].
  - destruct (storage_after_get_drive E w s w1 w2 _ Hg Ht) as (new & ? & Hf).
    exists new. split; [done|]. by rewrite Hf.
  - intros resp Hr. by rewrite (Hlog resp Hr), last_snoc.
Qed.

(** The answer to the sample delete request is an empty body. *)
Lemma delete_file_acknowledges_witness :
  (delete_file (Scenario.ext true) "f1" (Scenario.world (Some "good") true)).1
    = Ok (VDict {[ "success" := VBool true;
                   "message" := VStr "File f1 deleted successfully" ]}).
Proof.
  destruct (delete_file_acknowledges (Scenario.ext true)
              (Scenario.world (Some "good") true) "f1"
              (build "drive" "v3" Scenario.good_token)
              (get_drive (Scenario.ext true) (Scenario.world (Some "good") true)).2)
    as (_ & Hres & _); [vm_compute; reflexivity|].
  exact Hres.
Defined.

(** X12. [rename_file] sends one update request whose body holds the
    new name and nothing else (no [addParents], no [removeParents]: a rename
    never moves the file), and nothing else to the storage service.  The
    response is returned as it is, and the name logged is the one in the
    response, not the one asked for; a failure is raised. *)
Theorem rename_file_updates_name_only E w file_id new_name s w1 :
  get_drive E w = (Ok s, w1) ->
  let req := Request MUpdate
               {[ "fileId" := VStr file_id;
                  "body" := VDict {[ "name" := VStr new_name ]};
                  "fields" := VStr "id, name, webViewLink" ]} in
  let r := execute E (trace w1) (service_creds s) req in
  (exists new,
     trace (rename_file E file_id new_name w).2 = trace w ++ new /\
     List.filter is_storage new = [EvExecute (service_creds s) req r]) /\
  kwargs req !! "addParents" = None /\
  kwargs req !! "removeParents" = None /\
  (rename_file E file_id new_name w).1
    = match r with Got resp => Ok (VDict resp) | Failed e => Raise e end /\
  (forall resp, r = Got resp ->
     last (stderr (rename_file E file_id new_name w).2)
       = Some ("Renamed file to: " +:+ py_str E (dict_get resp "name" VNone))).
Proof.
  intros Hg. cbv zeta. unfold rename_file.
  rewrite (run_single_request _ _ _ _ _ _ _ _ Hg).
  destruct (execute E (trace w1) (service_creds s) _) as [resp|e] eqn:Hr; cbn.
  - split; [|repeat split; try done].
    + storage_since Hg.
    + intros resp' [= <-]. by rewrite last_snoc.
  - split; [|repeat split; try done].
    storage_since Hg.
Qed.

Lemma rename_file_updates_name_only_witness :
  (rename_file (Scenario.ext true) "f1" "plan.txt"
     (Scenario.world (Some "good") true)).1 = Ok (VDict Scenario.moved_file) /\
  last (stderr (rename_file (Scenario.ext true) "f1" "plan.txt"
                  (Scenario.world (Some "good") true)).2)
    = Some "Renamed file to: notes.txt".
Proof.
  destruct (rename_file_updates_name_only (Scenario.ext true)
              (Scenario.world (Some "good") true) "f1" "plan.txt"
              (build "drive" "v3" Scenario.good_token)
              (get_drive (Scenario.ext true) (Scenario.world (Some "good") true)).2)
    as (_ & _ & _ & Hres & Hlog); [vm_compute; reflexivity|].
  split; [exact Hres|]. apply (Hlog Scenario.moved_file). reflexivity.
Defined.

Lemma mask_fields_info :
  mask_fields INFO_FIELDS =
    [ "id"; "name"; "mimeType"; "size"; "createdTime"; "modifiedTime";
      "webViewLink"; "owners"; "permissions" ].
Proof. reflexivity. Qed.

(** X13. [get_file_info] sends one get request and nothing else to the
    storage service; the fields it selects are id, name, mimeType, size,
    createdTime, modifiedTime, webViewLink, owners and permissions, so not
    [parents].  The response is returned as it is and nothing is printed
    for it; a failure is raised. *)
Theorem get_file_info_request E w file_id s w1 :
  get_drive E w = (Ok s, w1) ->
  let req := Request MGet {[ "fileId" := VStr file_id; "fields" := VStr INFO_FIELDS ]} in
  let r := execute E (trace w1) (service_creds s) req in
  (exists new,
     trace (get_file_info E file_id w).2 = trace w ++ new /\
     List.filter is_storage new = [EvExecute (service_creds s) req r]) /\
  ("owners" ∈ mask_fields INFO_FIELDS) /\
  ("permissions" ∈ mask_fields INFO_FIELDS) /\
  ("parents" ∉ mask_fields INFO_FIELDS) /\
  (get_file_info E file_id w).1
    = match r with Got resp => Ok (VDict resp) | Failed e => Raise e end /\
  (forall resp, r = Got resp -> stderr (get_file_info E file_id w).2 = stderr w1).
Proof.
  intros Hg. cbv zeta. unfold get_file_info.
  rewrite (run_single_request _ _ _ _ _ _ _ _ Hg), mask_fields_info.
  assert (Hparents : "parents" ∉ [ "id"; "name"; "mimeType"; "size"; "createdTime";
                                   "modifiedTime"; "webViewLink"; "owners";
                                   "permissions" ]).
  { intros Hin. repeat (apply elem_of_cons in Hin as [Hin|Hin]; [discriminate|]).
    by apply elem_of_nil in Hin. }
  assert (Howners : "owners" ∈ [ "id"; "name"; "mimeType"; "size"; "createdTime";
                                 "modifiedTime"; "webViewLink"; "owners";
                                 "permissions" ]) by (do 7 right; left).
  assert (Hperm : "permissions" ∈ [ "id"; "name"; "mimeType"; "size"; "createdTime";
                                    "modifiedTime"; "webViewLink"; "owners";
                                    "permissions" ]) by (do 8 right; left).
  destruct (execute E (trace w1) (service_creds s) _) as [resp|e] eqn:Hr; cbn.
  - split; [|repeat split; try done].
    storage_since Hg.
  - split; [|repeat split; try done].
    storage_since Hg.
Qed.

Lemma get_file_info_request_witness :
  (get_file_info (Scenario.ext true) "f1" (Scenario.world (Some "good") true)).1
    = Ok (VDict {[ "parents" := VList [VStr "src1"; VStr "src2"] ]}).
Proof.
  destruct (get_file_info_request (Scenario.ext true)
              (Scenario.world (Some "good") true) "f1"
              (build "drive" "v3" Scenario.good_token)
              (get_drive (Scenario.ext true) (Scenario.world (Some "good") true)).2)
    as (_ & _ & _ & _ & Hres & _); [vm_compute; reflexivity|].
  exact Hres.
Defined.

(** X14. [create_folder] sends one create request and nothing else to
    the storage service; its body holds the folder name, the folder MIME
    type and, when [parent_folder_id] is a non-empty string, that id as the
    only parent.  The response is returned as it is; a failure is raised. *)
Theorem create_folder_request E w folder_name parent_folder_id s w1 :
  get_drive E w = (Ok s, w1) ->
  let body := folder_metadata folder_name parent_folder_id in
  let req := Request MCreate
               {[ "body" := VDict body; "fields" := VStr "id, name, webViewLink" ]} in
  let r := execute E (trace w1) (service_creds s) req in
  (exists new,
     trace (create_folder E folder_name parent_folder_id w).2 = trace w ++ new /\
     List.filter is_storage new = [EvExecute (service_creds s) req r]) /\
  body !! "name" = Some (VStr folder_name) /\
  body !! "mimeType" = Some (VStr "application/vnd.google-apps.folder") /\
  (forall p, parent_folder_id = Some p -> p <> "" ->
     body !! "parents" = Some (VList [VStr p])) /\
  (create_folder E folder_name parent_folder_id w).1
    = match r with Got resp => Ok (VDict resp) | Failed e => Raise e end.
Proof.
  intros Hg. cbv zeta. unfold create_folder.
  rewrite (run_single_request _ _ _ _ _ _ _ _ Hg).
  assert (Hbody : folder_metadata folder_name parent_folder_id !! "name"
                    = Some (VStr folder_name) /\
                  folder_metadata folder_name parent_folder_id !! "mimeType"
                    = Some (VStr "application/vnd.google-apps.folder") /\
                  forall p, parent_folder_id = Some p -> p <> "" ->
                    folder_metadata folder_name parent_folder_id !! "parents"
                      = Some (VList [VStr p])).
  { unfold folder_metadata, set_parents.
    destruct parent_folder_id as [q|]; [|by repeat split].
    cbn [truthy]. destruct (String.eqb_spec q ""); cbn [negb].
    - repeat split; try done. intros p [= ->]. done.
    - repeat split; try done. by intros p [= ->] _. }
  destruct Hbody as (Hname & Hmime & Hparents).
  destruct (execute E (trace w1) (service_creds s) _) as [resp|e] eqn:Hr; cbn.
  - split; [storage_since Hg | done].
  - split; [storage_since Hg | done].
Qed.

Lemma create_folder_request_witness :
  (create_folder (Scenario.ext true) "Reports" (Some "root1")
     (Scenario.world (Some "good") true)).1 = Ok (VDict ∅) /\
  folder_metadata "Reports" (Some "root1") !! "parents" = Some (VList [VStr "root1"]).
Proof.
  destruct (create_folder_request (Scenario.ext true)
              (Scenario.world (Some "good") true) "Reports" (Some "root1")
              (build "drive" "v3" Scenario.good_token)
              (get_drive (Scenario.ext true) (Scenario.world (Some "good") true)).2)
    as (_ & _ & _ & Hparents & Hres); [vm_compute; reflexivity|].
  split; [exact Hres|]. apply Hparents; [reflexivity | discriminate].
Defined.

(** X15. With a local path in place once the handle is acquired,
    [upload_file] looks the path up and opens it for reading.  If the open
    fails (a directory, a file that may not be read), the error is raised
    and no request is sent.  Otherwise it sends one create request, a
    resumable media upload of that path, and nothing else to the storage
    service; the response is returned as it is and a failure is raised.
    The name sent is [file_name] when that is a non-empty string, and the
    local files are as [get_drive] left them. *)
Theorem upload_file_request E w file_path file_name parent_folder_id s w1 x :
  get_drive E w = (Ok s, w1) ->
  fs w1 !! file_path = Some x ->
  let body := upload_metadata file_path file_name parent_folder_id in
  let looked := trace w1 ++ [EvExists file_path true] in
  (forall e, open_rb E looked file_path = Some e ->
     (upload_file E file_path file_name parent_folder_id w).1 = Raise e /\
     trace (upload_file E file_path file_name parent_folder_id w).2
       = looked ++ [EvOpenRead file_path (Some e)]) /\
  (open_rb E looked file_path = None ->
     let req := Request MCreate
                  {[ "body" := VDict body; "media_body" := VMedia file_path true;
                     "fields" := VStr "id, name, webViewLink" ]} in
     let r := execute E (looked ++ [EvOpenRead file_path None]) (service_creds s) req in
     (exists new,
        trace (upload_file E file_path file_name parent_folder_id w).2 = trace w ++ new /\
        List.filter is_storage new = [EvExecute (service_creds s) req r]) /\
     (upload_file E file_path file_name parent_folder_id w).1
       = match r with Got resp => Ok (VDict resp) | Failed e => Raise e end) /\
  (forall n, file_name = Some n -> n <> "" -> body !! "name" = Some (VStr n)) /\
  fs (upload_file E file_path file_name parent_folder_id w).2 = fs w1.
Proof.
  intros Hg Hx. cbv zeta.
  assert (Hname : forall n, file_name = Some n -> n <> "" ->
            upload_metadata file_path file_name parent_folder_id !! "name"
              = Some (VStr n)).
  { intros n -> Hn. unfold upload_metadata, set_parents, str_or. cbn [truthy].
    destruct (String.eqb_spec n ""); [done|]. cbn [negb].
    destruct parent_folder_id as [p|]; [destruct (truthy (Some p))|]; done. }
  unfold upload_file, try_log. erewrite bind_ok by exact Hg.
  erewrite bind_ok by (eapply path_exists_found; exact Hx).
  unfold bind, media_file_upload, execute_request, print, ret. cbn.
  destruct (open_rb E (trace w1 ++ [EvExists file_path true]) file_path) as [e|] eqn:Ho.
  - cbn. split; [|split; [done|split; [done|done]]].
    intros e' [= <-]. by rewrite <- app_assoc.
  - cbn.
    destruct (execute E ((trace w1 ++ [EvExists file_path true]) ++
                         [EvOpenRead file_path None]) (service_creds s) _)
      as [resp|e] eqn:Hr; cbn; rewrite <- !app_assoc; cbn.
    + split; [done|]. split; [|done]. intros _. split; [storage_since Hg | done].
    + split; [done|]. split; [|done]. intros _. split; [storage_since Hg | done].
Qed.

(** A directory given as [file_path]: nothing is sent.  A readable file:
    the response of the create request comes back. *)
Lemma upload_file_request_witness :
  (upload_file (Lab.with_dirs ["/srv/app"]) "/srv/app" None None
     {| fs := <["/srv/app" := ""]> (Scenario.disk (Some "good") true);
        stderr := []; trace := [] |}).1
    = Raise (Lab.is_a_directory "/srv/app") /\
  Forall (fun ev => is_storage ev = false)
    (trace (upload_file (Lab.with_dirs ["/srv/app"]) "/srv/app" None None
              {| fs := <["/srv/app" := ""]> (Scenario.disk (Some "good") true);
                 stderr := []; trace := [] |}).2) /\
  (upload_file (Scenario.ext true) "/srv/app/credentials.json" (Some "secrets.json") None
     (Scenario.world (Some "good") true)).1 = Ok (VDict ∅).
Proof.
  destruct (upload_file_request (Lab.with_dirs ["/srv/app"])
              {| fs := <["/srv/app" := ""]> (Scenario.disk (Some "good") true);
                 stderr := []; trace := [] |}
              "/srv/app" None None
              (build "drive" "v3" Scenario.good_token)
              (get_drive (Lab.with_dirs ["/srv/app"])
                 {| fs := <["/srv/app" := ""]> (Scenario.disk (Some "good") true);
                    stderr := []; trace := [] |}).2 "")
    as (Hdir & _); [vm_compute; reflexivity..|].
  destruct (Hdir (Lab.is_a_directory "/srv/app")) as (Hres & Ht); [reflexivity|].
  split; [exact Hres|]. split; [rewrite Ht; by repeat constructor|].
  destruct (upload_file_request (Scenario.ext true)
              (Scenario.world (Some "good") true)
              "/srv/app/credentials.json" (Some "secrets.json") None
              (build "drive" "v3" Scenario.good_token)
              (get_drive (Scenario.ext true) (Scenario.world (Some "good") true)).2 "{}")
    as (_ & Hopen & _); [vm_compute; reflexivity..|].
  destruct (Hopen eq_refl) as (_ & Hok). exact Hok.
Defined.

(** X16. [list_drive_files] sends one list request and nothing else to
    the storage service, with [pageSize = max_results] and, when [query] is
    not empty, [q = query] as given.  A response without a [files] entry
    gives the empty list and the line ["Found 0 files"]; a [files] list is
    returned as it is, with its length logged; a [files] entry that is
    [None] raises the [TypeError] of [len]; a failure of the request is
    raised. *)
Theorem list_drive_files_request E w max_results query s w1 :
  get_drive E w = (Ok s, w1) ->
  let req := Request MList (list_params max_results query) in
  let r := execute E (trace w1) (service_creds s) req in
  (exists new,
     trace (list_drive_files E max_results query w).2 = trace w ++ new /\
     List.filter is_storage new = [EvExecute (service_creds s) req r]) /\
  kwargs req !! "pageSize" = Some (VInt max_results) /\
  (query <> "" -> kwargs req !! "q" = Some (VStr query)) /\
  (forall resp, r = Got resp -> resp !! "files" = None ->
     (list_drive_files E max_results query w).1 = Ok (VList []) /\
     last (stderr (list_drive_files E max_results query w).2) = Some "Found 0 files") /\
  (forall resp l, r = Got resp -> resp !! "files" = Some (VList l) ->
     (list_drive_files E max_results query w).1 = Ok (VList l) /\
     last (stderr (list_drive_files E max_results query w).2)
       = Some ("Found " +:+ pretty (length l) +:+ " files")) /\
  (forall resp, r = Got resp -> resp !! "files" = Some VNone ->
     (list_drive_files E max_results query w).1
       = Raise (TypeError "object of type 'NoneType' has no len()")) /\
  (forall e, r = Failed e -> (list_drive_files E max_results query w).1 = Raise e).
Proof.
  intros Hg. cbv zeta.
  assert (Hkw : list_params max_results query !! "pageSize" = Some (VInt max_results) /\
                (query <> "" -> list_params max_results query !! "q" = Some (VStr query))).
  { unfold list_params. cbn [truthy].
    destruct (String.eqb_spec query ""); cbn [negb]; by split. }
  destruct Hkw as [Hsize Hq].
  unfold list_drive_files. rewrite (run_single_request _ _ _ _ _ _ _ _ Hg).
  destruct (execute E (trace w1) (service_creds s) _) as [resp|e] eqn:Hr.
  - split.
    { unfold dict_get. destruct (resp !! "files") as [[]|]; cbn; storage_since Hg. }
    split; [done|]. split; [done|]. unfold dict_get.
    split; [|split; [|split]].
    + intros resp' [= <-] ->. cbn. split; [done|]. by rewrite last_snoc.
    + intros resp' l [= <-] ->. cbn. split; [done|]. by rewrite last_snoc.
    + by intros resp' [= <-] ->.
    + by intros.
  - cbn. split; [storage_since Hg|]. repeat split; try done. by intros ? [= <-].
Qed.

Lemma list_drive_files_request_witness :
  (list_drive_files (Scenario.ext true) 10 "mimeType='application/pdf'"
     (Scenario.world (Some "good") true)).1 = Ok (VList [VDict Scenario.report_file]) /\
  list_params 10 "mimeType='application/pdf'" !! "q"
    = Some (VStr "mimeType='application/pdf'").
Proof.
  destruct (list_drive_files_request (Scenario.ext true)
              (Scenario.world (Some "good") true) 10 "mimeType='application/pdf'"
              (build "drive" "v3" Scenario.good_token)
              (get_drive (Scenario.ext true) (Scenario.world (Some "good") true)).2)
    as (_ & _ & Hq & _ & Hlist & _); [vm_compute; reflexivity|].
  split.
  - apply (Hlist {[ "files" := VList [VDict Scenario.report_file] ]}); reflexivity.
  - apply Hq. discriminate.
Defined.

(** ** More on download_file and move_file *)

(** X17. When the destination cannot be opened for writing,
    [download_file] raises the error of the open, logged; no chunk is
    requested and the local files are as [get_drive] left them. *)
Theorem download_file_cannot_open E fuel file_id destination_path w s w1 e :
  get_drive E w = (Ok s, w1) ->
  open_wb E (trace w1) destination_path = Some e ->
  exists w2,
    download_file E fuel file_id destination_path w = (Raise e, w2) /\
    fs w2 = fs w1 /\
    trace w2 = trace w1 ++ [EvOpenWrite destination_path (Some e)] /\
    last (stderr w2) = Some ("ERROR in download_file: " +:+ exn_msg e).
Proof.
  intros Hg Ho. eexists. split.
  { unfold download_file. apply try_log_raise.
    erewrite bind_ok by exact Hg.
    apply bind_raise. unfold open_write. rewrite Ho. reflexivity. }
  cbn. by rewrite last_snoc.
Qed.

Lemma download_file_cannot_open_witness :
  exists w2,
    download_file (Lab.ext ["/etc/out.bin"] [] []) 5 "f1" "/etc/out.bin"
      (Scenario.world (Some "good") true)
    = (Raise (Lab.permission_error "/etc/out.bin"), w2) /\
    fs w2 !! "/etc/out.bin" = None.
Proof.
  destruct (download_file_cannot_open (Lab.ext ["/etc/out.bin"] [] []) 5 "f1"
              "/etc/out.bin" (Scenario.world (Some "good") true)
              (build "drive" "v3" Scenario.good_token)
              (get_drive (Lab.ext ["/etc/out.bin"] [] [])
                 (Scenario.world (Some "good") true)).2
              (Lab.permission_error "/etc/out.bin"))
    as (w2 & Hrun & Hfs & _); [vm_compute; reflexivity..|].
  exists w2. split; [exact Hrun|]. rewrite Hfs. vm_compute; reflexivity.
Defined.

(** The loop prints one line per chunk that arrived. *)
Lemma download_loop_stderr E s fid dest fuel :
  forall w, exists answers,
    trace (download_loop E fuel s fid dest w).2
      = trace w ++ (EvChunk (service_creds s) fid <$> answers) /\
    stderr (download_loop E fuel s fid dest w).2
      = stderr w ++ (progress_line <$> arrived answers).
Proof.
  induction fuel as [|fuel IH]; intros w.
  - exists []. cbn. by rewrite !app_nil_r.
  - rewrite download_loop_step. cbv zeta.
    destruct (next_chunk E (trace w) (service_creds s) fid) as [ch|e] eqn:Hn.
    + destruct (chunk_done ch).
      * by exists [Got ch].
      * match goal with |- context [download_loop E fuel s fid dest ?w'] =>
          destruct (IH w') as (answers & Ht & Hs) end.
        exists (Got ch :: answers). rewrite Ht, Hs. cbn.
        by rewrite <- !app_assoc.
    + exists [Failed e]. cbn. by rewrite app_nil_r.
Qed.

Lemma download_file_after_open E fuel file_id destination_path w s w1 :
  get_drive E w = (Ok s, w1) ->
  open_wb E (trace w1) destination_path = None ->
  download_file E fuel file_id destination_path w =
    match download_loop E fuel s file_id destination_path
            (write_file destination_path ""
               (record (EvOpenWrite destination_path None) w1)) with
    | (Ok _, w3) =>
        (Ok (VDict {[ "success" := VBool true; "path" := VStr destination_path ]}),
         log_line ("Downloaded file to: " +:+ destination_path) w3)
    | (Raise e, w3) =>
        (Raise e, log_line ("ERROR in download_file: " +:+ exn_msg e) w3)
    | (Diverge, w3) => (Diverge, w3)
    end.
Proof.
  intros Hg Ho. unfold download_file, try_log.
  erewrite bind_ok by exact Hg.
  erewrite bind_ok by (unfold open_write; rewrite Ho; reflexivity).
  unfold bind at 1.
  by destruct (download_loop E fuel s file_id destination_path _) as [[[]|e|] w3].
Qed.

(** X18. Progress is reported once per chunk: after the lines of
    [get_drive], the lines [download_file] writes to [stderr] are one
    ["Download progress: <p>%"] per chunk that arrived, in order of
    arrival, followed by ["Downloaded file to: <destination_path>"] on
    success or by the error line on failure. *)
Theorem download_file_reports_each_chunk E fuel file_id destination_path w s w1 :
  get_drive E w = (Ok s, w1) ->
  open_wb E (trace w1) destination_path = None ->
  exists answers,
    trace (download_file E fuel file_id destination_path w).2
      = trace w1 ++ EvOpenWrite destination_path None
                 :: (EvChunk (service_creds s) file_id <$> answers) /\
    stderr (download_file E fuel file_id destination_path w).2
      = stderr w1 ++ (progress_line <$> arrived answers) ++
        match (download_file E fuel file_id destination_path w).1 with
        | Ok _ => ["Downloaded file to: " +:+ destination_path]
        | Raise e => ["ERROR in download_file: " +:+ exn_msg e]
        | Diverge => []
        end.
Proof.
  intros Hg Ho.
  rewrite (download_file_after_open _ _ _ _ _ _ _ Hg Ho).
  destruct (download_loop_stderr E s file_id destination_path fuel
              (write_file destination_path ""
                 (record (EvOpenWrite destination_path None) w1)))
    as (answers & Ht & Hs).
  exists answers.
  destruct (download_loop E fuel s file_id destination_path _) as [[[]|e|] w3];
    cbn in *; rewrite Ht, Hs, <- !app_assoc; by rewrite ?app_nil_r.
Qed.

Lemma download_file_reports_each_chunk_witness :
  stderr (download_file
            (Lab.ext [] [] [Got (Chunk "abc" 50 false); Got (Chunk "de" 100 true)])
            5 "f1" "/tmp/out.bin" (Scenario.world None true)).2
  = [ "Starting authentication process...";
      "credentials.json found at /srv/app/credentials.json";
      "Starting OAuth flow..."; "OAuth flow completed"; "Saving token...";
      "Building Drive service..."; "Drive service ready!";
      "Download progress: 50%"; "Download progress: 100%";
      "Downloaded file to: /tmp/out.bin" ] /\
  fs (download_file
        (Lab.ext [] [] [Got (Chunk "abc" 50 false); Got (Chunk "de" 100 true)])
        5 "f1" "/tmp/out.bin" (Scenario.world None true)).2 !! "/tmp/out.bin"
  = Some "abcde".
Proof.
  destruct (download_file_reports_each_chunk
              (Lab.ext [] [] [Got (Chunk "abc" 50 false); Got (Chunk "de" 100 true)])
              5 "f1" "/tmp/out.bin" (Scenario.world None true)
              (build "drive" "v3" Scenario.fresh_token)
              (get_drive (Lab.ext [] [] []) (Scenario.world None true)).2)
    as (answers & _ & _); [vm_compute; reflexivity..|].
  split; vm_compute; reflexivity.
Defined.

(** X19. [move_file] sends the update only after it has read and joined
    the parents: when the get request fails, or when the parents it
    returns hold something that is not a string, the invocation raises
    (the failure of the request, or the [TypeError] of [join]) and the get
    request is the only request it made. *)
Theorem move_file_without_parents E w file_id new_parent_folder_id s w1 :
  get_drive E w = (Ok s, w1) ->
  let read := Request MGet (parents_params file_id) in
  (forall e, execute E (trace w1) (service_creds s) read = Failed e ->
     (move_file E file_id new_parent_folder_id w).1 = Raise e /\
     trace (move_file E file_id new_parent_folder_id w).2
       = trace w1 ++ [EvExecute (service_creds s) read (Failed e)]) /\
  (forall file l e,
     execute E (trace w1) (service_creds s) read = Got file ->
     dict_get file "parents" (VList []) = VList l ->
     str_items 0 l = inl e ->
     (move_file E file_id new_parent_folder_id w).1 = Raise e /\
     exn_type e = "TypeError" /\
     trace (move_file E file_id new_parent_folder_id w).2
       = trace w1 ++ [EvExecute (service_creds s) read (Got file)]).
Proof.
  intros Hg. cbv zeta. unfold move_file.
  rewrite (run_first_request _ _ _ _ _ _ _ _ Hg). split.
  - intros e ->. done.
  - intros file l e -> Hl Hitems. rewrite Hl. unfold try_log, bind at 1. cbn.
    rewrite Hitems. cbn. split; [done|]. split; [|done].
    by eapply str_items_TypeError.
Qed.

Lemma move_file_without_parents_witness :
  (move_file (Lab.ext [] [MGet] []) "f1" "dst" (Scenario.world (Some "good") true)).1
    = Raise Lab.not_found /\
  List.filter (is_call MUpdate)
    (trace (move_file (Lab.ext [] [MGet] []) "f1" "dst"
              (Scenario.world (Some "good") true)).2) = [].
Proof.
  destruct (move_file_without_parents (Lab.ext [] [MGet] [])
              (Scenario.world (Some "good") true) "f1" "dst"
              (build "drive" "v3" Scenario.good_token)
              (get_drive (Lab.ext [] [MGet] []) (Scenario.world (Some "good") true)).2)
    as (Hfail & _); [vm_compute; reflexivity|].
  destruct (Hfail Lab.not_found) as (Hres & Ht); [reflexivity|].
  split; [exact Hres|]. rewrite Ht. vm_compute; reflexivity.
Defined.

(** ** The name of an upload *)

Lemma ends_with_slash_cons c d :
  ends_with_slash d = true -> ends_with_slash (String c d) = true.
Proof.
  unfold ends_with_slash. cbn [String.list_ascii_of_string].
  rewrite last_cons. by destruct (last (String.list_ascii_of_string d)).
Qed.

(** [basename] cuts a path after its last slash. *)
Lemma basename_split p :
  exists dir, p = dir +:+ basename p /\ has_slash (basename p) = false /\
              (dir = "" \/ ends_with_slash dir = true).
Proof.
  induction p as [|c rest (dir & Hrest & Hno & Hdir)].
  { exists "". split; [done|]. split; [done|]. by left. }
  cbn [basename]. fold (has_slash rest).
  destruct (Ascii.eqb c "/") eqn:Hc.
  - apply Ascii.eqb_eq in Hc as ->. exists (String "/" dir).
    rewrite append_cons, <- Hrest. split; [done|]. split; [done|]. right.
    destruct Hdir as [-> | Hdir]; [done | by apply ends_with_slash_cons].
  - destruct (has_slash rest) eqn:Hs.
    + exists (String c dir). rewrite append_cons, <- Hrest.
      split; [done|]. split; [done|]. right.
      destruct Hdir as [-> | Hdir]; [|by apply ends_with_slash_cons].
      rewrite append_nil in Hrest. congruence.
    + exists "". split; [done|]. split; [|by left].
      unfold has_slash in *. cbn [String.list_ascii_of_string existsb].
      by rewrite Ascii.eqb_sym, Hc, Hs.
Qed.

(** X20. Without a [file_name] (left out or empty), the name
    [upload_file] sends is the last component of [file_path]: the path is
    some directory part, empty or ending in a slash, followed by the name,
    and the name has no slash. *)
Theorem upload_name_is_last_component file_path file_name parent_folder_id :
  truthy file_name = false ->
  exists dir name,
    upload_metadata file_path file_name parent_folder_id !! "name" = Some (VStr name) /\
    file_path = dir +:+ name /\
    has_slash name = false /\
    (dir = "" \/ ends_with_slash dir = true).
Proof.
  intros Hf. destruct (basename_split file_path) as (dir & Hp & Hno & Hdir).
  exists dir, (basename file_path). split; [|done].
  unfold upload_metadata, set_parents, str_or.
  destruct file_name as [n|]; [rewrite Hf|];
    (destruct parent_folder_id as [p|]; [destruct (truthy (Some p))|]); done.
Qed.

Lemma upload_name_is_last_component_witness :
  upload_metadata "/home/u/notes.txt" (Some "") None !! "name" = Some (VStr "notes.txt") /\
  exists dir name,
    upload_metadata "/home/u/notes.txt" (Some "") None !! "name" = Some (VStr name) /\
    "/home/u/notes.txt" = dir +:+ name /\ has_slash name = false.
Proof.
  split; [reflexivity|].
  destruct (upload_name_is_last_component "/home/u/notes.txt" (Some "") None eq_refl)
    as (dir & name & Hname & Hpath & Hno & _).
  exists dir, name. split; [exact Hname|]. split; [exact Hpath | exact Hno].
Defined.
